(** * TeX Workspace, Electron main process: IPC handlers

    A shallow embedding of [tex-workspace/electron/src/main.js] (the part of
    the bundle that follows [preload.js]): the workspace file handlers
    ([list-files], [read-file], [save-file], [get-file-path],
    [get-file-mtime], [set-directory]), the terminal registry
    ([create-terminal], [terminal-input], [terminal-resize],
    [close-terminal], the [onExit] callback, the window [closed] handler)
    and tmux discovery ([list-tmux-sessions]).

    A JavaScript string is modelled as the [string] of the bytes of its
    UTF-8 encoding (what Node exchanges with the file system and with the
    child process); the builtins of the language and of Node
    ([String.prototype.*], [parseInt], [path.*]) are modelled in the
    modules [JS] and [Path] from their documented algorithms, on POSIX
    paths (the program runs on macOS: it spawns
    [/opt/homebrew/bin/tmux]).  The file system, the pty backend and the
    child process are the environment: their answers are oracles, and every
    call the handlers make to them is recorded. *)

From Stdlib Require Import ZArith Ascii String List Bool Lia Sorted Permutation.
From stdpp Require Import base option list gmap strings.

Local Open Scope Z_scope.
Local Open Scope list_scope.
Import ListNotations.

(** ** JavaScript builtins *)

Module JS.

(** [s.startsWith(t)] *)
Definition startsWith (s t : string) : bool := String.prefix t s.

(** Truthiness of a string value: only [""] is falsy. *)
Definition truthy (s : string) : bool :=
  match s with EmptyString => false | String _ _ => true end.

(** Truthiness of a value that is [null]/[undefined] or a string. *)
Definition truthy_opt (o : option string) : bool :=
  match o with None => false | Some s => truthy s end.

(** Truthiness of a value that is [undefined] or an integral number
    ([0] is falsy). *)
Definition truthy_num (o : option Z) : bool :=
  match o with None => false | Some n => negb (n =? 0) end.

(** [a || b] on numbers. *)
Definition or_num (o : option Z) (d : Z) : Z :=
  match o with
  | Some n => if n =? 0 then d else n
  | None => d
  end.

(** [a || b] on strings. *)
Definition or_str (o : option string) (d : string) : string :=
  match o with
  | Some s => if truthy s then s else d
  | None => d
  end.

Definition chars (s : string) : list ascii := list_ascii_of_string s.
Definition str (l : list ascii) : string := string_of_list_ascii l.

(** *** White space

    [trim] strips, and [parseInt] skips, the white-space characters and
    line terminators of the language.  Those of one byte are TAB, LF, VT,
    FF, CR and SP. *)
Definition isWhiteSpace (c : ascii) : bool :=
  let n := nat_of_ascii c in
  ((9 <=? n) && (n <=? 13))%nat || (n =? 32)%nat.

(** U+00A0, encoded [C2 A0]. *)
Definition isWhiteSpace2 (c1 c2 : ascii) : bool :=
  ((nat_of_ascii c1 =? 194) && (nat_of_ascii c2 =? 160))%nat.

(** U+1680 [E1 9A 80]; U+2000 to U+200A [E2 80 80] to [E2 80 8A]; U+2028,
    U+2029 and U+202F [E2 80 A8], [E2 80 A9], [E2 80 AF]; U+205F
    [E2 81 9F]; U+3000 [E3 80 80]; U+FEFF [EF BB BF]. *)
Definition isWhiteSpace3 (c1 c2 c3 : ascii) : bool :=
  let n1 := nat_of_ascii c1 in
  let n2 := nat_of_ascii c2 in
  let n3 := nat_of_ascii c3 in
  ((n1 =? 225) && (n2 =? 154) && (n3 =? 128)
   || (n1 =? 226) && (n2 =? 128)
      && ((128 <=? n3) && (n3 <=? 138) || (n3 =? 168) || (n3 =? 169)
          || (n3 =? 175))
   || (n1 =? 226) && (n2 =? 129) && (n3 =? 159)
   || (n1 =? 227) && (n2 =? 128) && (n3 =? 128)
   || (n1 =? 239) && (n2 =? 187) && (n3 =? 191))%nat.

(** The bytes that start, and the bytes that end, a white-space character
    of more than one byte. *)
Definition leadByte (c : ascii) : bool :=
  let n := nat_of_ascii c in
  ((n =? 194) || (n =? 225) || (n =? 226) || (n =? 227) || (n =? 239))%nat.

Definition tailByte (c : ascii) : bool :=
  let n := nat_of_ascii c in ((128 <=? n) && (n <? 192))%nat.

(** [s.trimStart()], on the bytes. *)
Fixpoint trimStart_chars (l : list ascii) : list ascii :=
  match l with
  | [] => []
  | c1 :: l1 =>
      if isWhiteSpace c1 then trimStart_chars l1
      else if negb (leadByte c1) then l
      else
        match l1 with
        | c2 :: l2 =>
            if isWhiteSpace2 c1 c2 then trimStart_chars l2
            else
              match l2 with
              | c3 :: l3 =>
                  if isWhiteSpace3 c1 c2 c3 then trimStart_chars l3 else l
              | [] => l
              end
        | [] => l
        end
  end.

(** [s.trimEnd()], on the bytes read from the end: [c1] is the last
    byte, [c2] the one before it. *)
Fixpoint trimEnd_rev (l : list ascii) : list ascii :=
  match l with
  | [] => []
  | c1 :: l1 =>
      if isWhiteSpace c1 then trimEnd_rev l1
      else if negb (tailByte c1) then l
      else
        match l1 with
        | c2 :: l2 =>
            if isWhiteSpace2 c2 c1 then trimEnd_rev l2
            else
              match l2 with
              | c3 :: l3 =>
                  if isWhiteSpace3 c3 c2 c1 then trimEnd_rev l3 else l
              | [] => l
              end
        | [] => l
        end
  end.

(** [s.trim()] *)
Definition trim (s : string) : string :=
  str (rev (trimEnd_rev (rev (trimStart_chars (chars s))))).

(** [s.split(sep)] for a one-character separator; [cur] is the piece
    being read, reversed.  The result always has at least one piece. *)
Fixpoint split_chars (sep : ascii) (cur : list ascii) (l : list ascii)
  : list string :=
  match l with
  | [] => [str (rev cur)]
  | c :: l' =>
      if Ascii.eqb c sep then str (rev cur) :: split_chars sep [] l'
      else split_chars sep (c :: cur) l'
  end.

Definition split (sep : ascii) (s : string) : list string :=
  split_chars sep [] (chars s).

(** [s.toLowerCase()] on the ASCII range. *)
Definition toLowerCase_char (c : ascii) : ascii :=
  let n := nat_of_ascii c in
  if ((65 <=? n) && (n <=? 90))%nat then ascii_of_nat (n + 32) else c.

Definition toLowerCase (s : string) : string :=
  str (map toLowerCase_char (chars s)).

(** [arr.includes(x)] on an array of strings. *)
Definition includes (arr : list string) (x : string) : bool :=
  existsb (String.eqb x) arr.

(** [s.replace(/^~/, r)]: a leading tilde is replaced by [r]. *)
Definition replace_leading_tilde (s r : string) : string :=
  match s with
  | String "~"%char rest => r +:+ rest
  | _ => s
  end.

(** *** Numbers

    A Number that holds an integer: [NaN], a finite integral value, the
    negative zero, or an infinity. *)
Inductive Number :=
| NaN
| Finite (n : Z)
| NegZero
| Infinite (negative : bool).

(** The double nearest to a natural number [m], ties to even: [m] itself
    below [2^53], and above it [m] rounded to 53 significant bits.  The
    result is [2^1024] or more exactly when the double is infinite. *)
Definition roundToDouble (m : Z) : Z :=
  if m <? 2 ^ 53 then m
  else
    let e := Z.log2 m - 52 in
    let q := Z.shiftr m e in
    let r := m - Z.shiftl q e in
    let half := 2 ^ (e - 1) in
    let q' := if (half <? r) || ((r =? half) && Z.odd q) then q + 1 else q in
    Z.shiftl q' e.

(** The Number with sign [sign] (1 or -1) and magnitude nearest to [m]. *)
Definition number (sign m : Z) : Number :=
  let d := roundToDouble m in
  if 2 ^ 1024 <=? d then Infinite (sign <? 0)
  else if (d =? 0) && (sign <? 0) then NegZero
  else Finite (sign * d).

(** *** [parseInt(s)]

    Leading white space is skipped, then an optional sign, then an
    optional [0x]/[0X] prefix that selects radix 16 (radix 10 otherwise);
    the longest run of digits of the radix is read, whatever follows is
    ignored; with no digit the result is [NaN].  [undefined] is converted
    to the string ["undefined"], which has no digit.  The result is the
    Number nearest to the integer read, as V8 computes it. *)
Definition digit_of (radix : Z) (c : ascii) : option Z :=
  let n := Z.of_nat (nat_of_ascii c) in
  let d := if (48 <=? n) && (n <=? 57) then n - 48
           else if (97 <=? n) && (n <=? 122) then n - 87
           else if (65 <=? n) && (n <=? 90) then n - 55
           else 99 in
  if d <? radix then Some d else None.

(** Reads digits; [acc] is [None] until the first digit. *)
Fixpoint parseDigits (radix : Z) (acc : option Z) (l : list ascii)
  : option Z :=
  match l with
  | [] => acc
  | c :: l' =>
      match digit_of radix c with
      | Some d => parseDigits radix (Some (from_option id 0 acc * radix + d)) l'
      | None => acc
      end
  end.

Definition parseInt_chars (l : list ascii) : Number :=
  let l := trimStart_chars l in
  let '(sign, l) :=
    match l with
    | "-"%char :: l' => (-1, l')
    | "+"%char :: l' => (1, l')
    | _ => (1, l)
    end in
  let '(radix, l) :=
    match l with
    | "0"%char :: "x"%char :: l' => (16, l')
    | "0"%char :: "X"%char :: l' => (16, l')
    | _ => (10, l)
    end in
  match parseDigits radix None l with
  | Some m => number sign m
  | None => NaN
  end.

Definition parseInt (v : option string) : Number :=
  match v with
  | Some s => parseInt_chars (chars s)
  | None => NaN
  end.

End JS.

(** ** Node's [path] module, POSIX flavour *)

Module Path.

Definition sep : ascii := "/"%char.

Definition isAbsolute (p : string) : bool :=
  match p with String c _ => Ascii.eqb c sep | EmptyString => false end.

Definition trailingSeparator (p : string) : bool :=
  match rev (JS.chars p) with c :: _ => Ascii.eqb c sep | [] => false end.

(** [normalizeString], read segment by segment.  [res] is the stack of
    the segments kept so far, last one first.  Empty segments and ["."]
    are dropped; [".."] removes the last kept segment, unless there is
    none or it is itself [".."], in which case [".."] is kept when
    [allowAboveRoot] and dropped otherwise. *)
Fixpoint normalizeSegments (allowAboveRoot : bool) (res : list string)
  (segs : list string) : list string :=
  match segs with
  | [] => rev res
  | s :: segs' =>
      if String.eqb s "" || String.eqb s "." then
        normalizeSegments allowAboveRoot res segs'
      else if String.eqb s ".." then
        match res with
        | top :: res' =>
            if String.eqb top ".." then
              normalizeSegments allowAboveRoot
                (if allowAboveRoot then ".." :: res else res) segs'
            else normalizeSegments allowAboveRoot res' segs'
        | [] =>
            normalizeSegments allowAboveRoot
              (if allowAboveRoot then [".."] else []) segs'
        end
      else normalizeSegments allowAboveRoot (s :: res) segs'
  end.

Definition normalizeString (p : string) (allowAboveRoot : bool) : string :=
  String.concat "/" (normalizeSegments allowAboveRoot [] (JS.split sep p)).

(** [path.normalize(p)] *)
Definition normalize (p : string) : string :=
  if negb (JS.truthy p) then "."
  else
    let abs := isAbsolute p in
    let trailing := trailingSeparator p in
    let r := normalizeString p (negb abs) in
    if negb (JS.truthy r) then
      if abs then "/" else if trailing then "./" else "."
    else
      (if abs then "/" else "") +:+ r +:+ (if trailing then "/" else "").

(** [path.join(...args)]: the non-empty arguments are glued with ["/"]
    and the result is normalized. *)
Definition join (args : list string) : string :=
  match filter (fun a => JS.truthy a = true) args with
  | [] => "."
  | parts => normalize (String.concat "/" parts)
  end.

(** [path.resolve(p)] with one argument; [cwd] is [process.cwd()]. *)
Definition resolve (cwd p : string) : string :=
  let resolvedPath :=
    if negb (JS.truthy p) then cwd +:+ "/"
    else if isAbsolute p then p +:+ "/"
    else cwd +:+ "/" +:+ p +:+ "/" in
  let resolvedAbsolute := isAbsolute resolvedPath in
  let r := normalizeString resolvedPath (negb resolvedAbsolute) in
  if resolvedAbsolute then "/" +:+ r
  else if JS.truthy r then r else ".".

(** [path.basename(p)]: the last non-empty segment, [""] if none. *)
Definition basename (p : string) : string :=
  match filter (fun s => JS.truthy s = true) (rev (JS.split sep p)) with
  | s :: _ => s
  | [] => ""
  end.

(** [path.extname(name)] for a name without separator (a directory
    entry).  The extension runs from the last dot to the end; there is
    none when the name has no dot, when its only dot is its first
    character, or when the name is [".."]. *)
Fixpoint lastDot (l : list ascii) (i : nat) (found : option nat)
  : option nat :=
  match l with
  | [] => found
  | c :: l' =>
      lastDot l' (S i) (if Ascii.eqb c "."%char then Some i else found)
  end.

Definition extname (name : string) : string :=
  let l := JS.chars name in
  match lastDot l 0 None with
  | None => ""
  | Some O => ""
  | Some startDot =>
      if String.eqb name ".." then ""
      else JS.str (drop startDot l)
  end.

End Path.

(** ** The environment *)

(** The outcome of a call that may throw; [Throw] carries [e.message]. *)
Inductive Try (A : Type) : Type :=
| Ok (a : A)
| Throw (message : string).
Arguments Ok {A} a.
Arguments Throw {A} message.

Module Fs.

(** [fs.Dirent], as returned by [readdirSync(_, {withFileTypes: true})]. *)
Record Dirent := { name : string; isDirectory : bool }.

(** [fs.Stats] *)
Record Stats := { stat_isDirectory : bool; mtimeMs : Z }.

(** A snapshot of the file system.  [stat] answers both [existsSync] and
    [statSync], which follow the same path lookup; the other calls have
    answers of their own. *)
Record FileSystem := {
  stat : string -> option Stats;
  readdir : string -> Try (list Dirent);
  readFile : string -> Try string;
  writeFile : string -> string -> Try unit
}.

Definition existsSync (fs : FileSystem) (p : string) : bool :=
  match stat fs p with Some _ => true | None => false end.

Definition statSync (fs : FileSystem) (p : string) : Try Stats :=
  match stat fs p with
  | Some s => Ok s
  | None => Throw ("ENOENT: no such file or directory, stat '" +:+ p +:+ "'")
  end.

(** The calls a handler made, in order. *)
Inductive Call :=
| ExistsSync (p : string)
| StatSync (p : string)
| ReaddirSync (p : string)
| ReadFileSync (p : string)
| WriteFileSync (p : string) (content : string).

End Fs.

(** What the host gives the process: [os.homedir()], [process.cwd()],
    [process.env.SHELL], and whether [require('node-pty')] succeeded. *)
Record Host := {
  homedir : string;
  cwd : string;
  env_SHELL : option string;
  pty : bool
}.

(** ** The file handlers *)

Definition ALLOWED_EXTENSIONS : list string :=
  [".tex"; ".bib"; ".sty"; ".cls"; ".txt"; ".md"; ".pdf"; ".jpg"; ".jpeg";
   ".png"; ".gif"; ".svg"].
Definition TEXT_EXTENSIONS : list string :=
  [".tex"; ".bib"; ".sty"; ".cls"; ".txt"; ".md"].

(** An element of [files] in the reply of [list-files]. *)
Record FileEntry := {
  name : string;
  path : string;
  isDirectory : bool;
  isText : bool;
  isPdf : bool;
  isImage : bool
}.

Inductive ListReply :=
| ListError (error : string) (files : list FileEntry)
| ListOk (path : string) (root : string) (files : list FileEntry).

Definition files_of (r : ListReply) : list FileEntry :=
  match r with ListError _ fs => fs | ListOk _ _ fs => fs end.

Inductive ReadReply :=
| ReadError (error : string)
| ReadOk (path : string) (content : string).

Inductive SaveReply :=
| SaveError (error : string)
| SaveOk (path : string).

Inductive MtimeReply :=
| MtimeNull
| Mtime (mtime : Z) (path : string).

Inductive DirReply :=
| DirError (error : string)
| DirOk (path : string) (name : string).

(** [arr.sort(cmp)]: the sort of the language is stable; with a consistent
    comparator every stable sort returns the same array, here the one of
    insertion sort. *)
Section Sort.
Context {A : Type} (cmp : A -> A -> Z).

Fixpoint insert_sorted (x : A) (l : list A) : list A :=
  match l with
  | [] => [x]
  | y :: l' =>
      if cmp x y <=? 0 then x :: y :: l' else y :: insert_sorted x l'
  end.

Definition sort (l : list A) : list A := foldr insert_sorted [] l.
End Sort.

Section ListFiles.

(** [a.localeCompare(b)]: the collation of the host's locale, negative,
    zero or positive. *)
Variable localeCompare : string -> string -> Z.

(** The [.filter] callbacks of [list-files]. *)
Definition notHidden (entry : Fs.Dirent) : bool :=
  negb (JS.startsWith (Fs.name entry) ".").

Definition allowed (entry : Fs.Dirent) : bool :=
  if Fs.isDirectory entry then true
  else
    let ext := JS.toLowerCase (Path.extname (Fs.name entry)) in
    JS.includes ALLOWED_EXTENSIONS ext.

(** The [.map] callback. *)
Definition toFileEntry (relativePath : string) (entry : Fs.Dirent) : FileEntry :=
  let ext := JS.toLowerCase (Path.extname (Fs.name entry)) in
  {| name := Fs.name entry;
     path := if JS.truthy relativePath
             then Path.join [relativePath; Fs.name entry]
             else Fs.name entry;
     isDirectory := Fs.isDirectory entry;
     isText := negb (Fs.isDirectory entry) && JS.includes TEXT_EXTENSIONS ext;
     isPdf := String.eqb ext ".pdf";
     isImage := JS.includes [".jpg"; ".jpeg"; ".png"; ".gif"; ".svg"] ext |}.

(** The [.sort] comparator. *)
Definition compareEntries (a b : FileEntry) : Z :=
  if negb (Bool.eqb (isDirectory a) (isDirectory b))
  then (if isDirectory a then -1 else 1)
  else localeCompare (JS.toLowerCase (name a)) (JS.toLowerCase (name b)).

Definition listing (relativePath : string) (entries : list Fs.Dirent)
  : list FileEntry :=
  sort compareEntries
    (map (toFileEntry relativePath)
       (filter (fun e => allowed e = true)
          (filter (fun e => notHidden e = true) entries))).

(** [ipcMain.handle('list-files', ...)]; [relativePath] defaults to [""]. *)
Definition list_files (fs : Fs.FileSystem) (currentDirectory : option string)
  (relativePath : string) : ListReply * list Fs.Call :=
  match currentDirectory with
  | Some cd =>
      if negb (JS.truthy cd) then (ListError "No directory opened" [], [])
      else
        let fullPath :=
          if JS.truthy relativePath then Path.join [cd; relativePath] else cd in
        if negb (JS.startsWith fullPath cd) then (ListError "Invalid path" [], [])
        else
          match Fs.readdir fs fullPath with
          | Ok entries =>
              (ListOk relativePath cd (listing relativePath entries),
               [Fs.ReaddirSync fullPath])
          | Throw message => (ListError message [], [Fs.ReaddirSync fullPath])
          end
  | None => (ListError "No directory opened" [], [])
  end.

End ListFiles.

(** The guard [!currentDirectory || !relativePath] of the other handlers:
    the root when both are truthy. *)
Definition validRequest (currentDirectory : option string) (relativePath : string)
  : option string :=
  match currentDirectory with
  | Some cd => if JS.truthy cd && JS.truthy relativePath then Some cd else None
  | None => None
  end.

(** [ipcMain.handle('read-file', ...)] *)
Definition read_file (fs : Fs.FileSystem) (currentDirectory : option string)
  (relativePath : string) : ReadReply * list Fs.Call :=
  match validRequest currentDirectory relativePath with
  | None => (ReadError "Invalid request", [])
  | Some cd =>
      let fullPath := Path.join [cd; relativePath] in
      if negb (JS.startsWith fullPath cd) then (ReadError "Invalid path", [])
      else
        match Fs.readFile fs fullPath with
        | Ok content => (ReadOk relativePath content, [Fs.ReadFileSync fullPath])
        | Throw message => (ReadError message, [Fs.ReadFileSync fullPath])
        end
  end.

(** [ipcMain.handle('save-file', ...)] *)
Definition save_file (fs : Fs.FileSystem) (currentDirectory : option string)
  (relativePath content : string) : SaveReply * list Fs.Call :=
  match validRequest currentDirectory relativePath with
  | None => (SaveError "Invalid request", [])
  | Some cd =>
      let fullPath := Path.join [cd; relativePath] in
      if negb (JS.startsWith fullPath cd) then (SaveError "Invalid path", [])
      else
        match Fs.writeFile fs fullPath content with
        | Ok _ => (SaveOk relativePath, [Fs.WriteFileSync fullPath content])
        | Throw message => (SaveError message, [Fs.WriteFileSync fullPath content])
        end
  end.

(** [ipcMain.handle('get-file-path', ...)]; [None] is [null]. *)
Definition get_file_path (fs : Fs.FileSystem) (currentDirectory : option string)
  (relativePath : string) : option string * list Fs.Call :=
  match validRequest currentDirectory relativePath with
  | None => (None, [])
  | Some cd =>
      let fullPath := Path.join [cd; relativePath] in
      if negb (JS.startsWith fullPath cd) then (None, [])
      else if negb (Fs.existsSync fs fullPath) then (None, [Fs.ExistsSync fullPath])
      else (Some fullPath, [Fs.ExistsSync fullPath])
  end.

(** [ipcMain.handle('get-file-mtime', ...)] *)
Definition get_file_mtime (fs : Fs.FileSystem) (currentDirectory : option string)
  (relativePath : string) : MtimeReply * list Fs.Call :=
  match validRequest currentDirectory relativePath with
  | None => (MtimeNull, [])
  | Some cd =>
      let fullPath := Path.join [cd; relativePath] in
      if negb (JS.startsWith fullPath cd) then (MtimeNull, [])
      else
        match Fs.statSync fs fullPath with
        | Ok st => (Mtime (Fs.mtimeMs st) relativePath, [Fs.StatSync fullPath])
        | Throw _ => (MtimeNull, [Fs.StatSync fullPath])
        end
  end.

(** [ipcMain.handle('set-directory', ...)]: the reply, or the error the
    handler throws, the new value of [currentDirectory], and the calls. *)
Definition set_directory (host : Host) (fs : Fs.FileSystem)
  (currentDirectory : option string) (dirPath : string)
  : Try DirReply * option string * list Fs.Call :=
  let expandedPath := JS.replace_leading_tilde dirPath (homedir host) in
  let fullPath := Path.resolve (cwd host) expandedPath in
  if Fs.existsSync fs fullPath then
    match Fs.statSync fs fullPath with
    | Ok st =>
        if Fs.stat_isDirectory st then
          (Ok (DirOk fullPath (Path.basename fullPath)), Some fullPath,
           [Fs.ExistsSync fullPath; Fs.StatSync fullPath])
        else
          (Ok (DirError "Directory not found"), currentDirectory,
           [Fs.ExistsSync fullPath; Fs.StatSync fullPath])
    | Throw message =>
        (Throw message, currentDirectory,
         [Fs.ExistsSync fullPath; Fs.StatSync fullPath])
    end
  else (Ok (DirError "Directory not found"), currentDirectory,
        [Fs.ExistsSync fullPath]).

(** ** The terminal registry *)

(** The identity of a pty object returned by [pty.spawn]. *)
Definition Handle := nat.

(** The [options] argument of [create-terminal]; an absent field is
    [undefined]. *)
Record Options := {
  type : option string;
  session : option string;
  cols : option Z;
  rows : option Z
}.

(** The arguments of [pty.spawn(shell, args, {name, cols, rows, cwd, env})];
    [env] is always [process.env]. *)
Record SpawnRequest := {
  spawn_file : string;
  spawn_args : list string;
  spawn_name : string;
  spawn_cols : Z;
  spawn_rows : Z;
  spawn_cwd : string
}.

(** Calls to the pty backend. *)
Inductive PtyCall :=
| Spawn (req : SpawnRequest)
| Write (term : Handle) (data : string)
| Resize (term : Handle) (c r : Z)
| Kill (term : Handle).

(** Messages pushed to the renderer with [mainWindow.webContents.send]. *)
Inductive Event :=
| TerminalOutput (termId : string) (data : string)
| TerminalClosed (termId : string).

#[global] Instance Event_eq_dec : EqDecision Event.
Proof. solve_decision. Defined.

(** The globals of the main process.  [mainWindow] is [true] when the
    guard [mainWindow && !mainWindow.isDestroyed() && mainWindow.webContents
    && !mainWindow.webContents.isDestroyed()] holds. *)
Record State := {
  currentDirectory : option string;
  terminals : gmap string Handle;
  mainWindow : bool
}.

Definition set_terminals (st : State) (t : gmap string Handle) : State :=
  {| currentDirectory := currentDirectory st; terminals := t;
     mainWindow := mainWindow st |}.

Inductive CreateReply :=
| CreateError (error : string)
| CreateOk (termId : string).

Inductive CloseReply := CloseOk.

(** The command chosen by [create-terminal]. *)
Definition spawnRequest (host : Host) (st : State) (options : Options)
  : SpawnRequest :=
  let cwd := JS.or_str (currentDirectory st) (homedir host) in
  let '(shell, args) :=
    if match type options with Some t => String.eqb t "tmux" | None => false end
       && JS.truthy_opt (session options)
    then ("/opt/homebrew/bin/tmux", ["attach"; "-t"; default "" (session options)])
    else (JS.or_str (env_SHELL host) "/bin/bash", ["-l"]) in
  {| spawn_file := shell;
     spawn_args := args;
     spawn_name := "xterm-256color";
     spawn_cols := JS.or_num (cols options) 80;
     spawn_rows := JS.or_num (rows options) 24;
     spawn_cwd := cwd |}.

(** [ipcMain.handle('create-terminal', ...)].  [spawned] is the answer of
    [pty.spawn]: a new pty object, or the error it throws.  The [onData]
    and [onExit] callbacks registered on the new object capture [termId];
    they are [on_data] and [on_exit] below. *)
Definition create_terminal (host : Host) (st : State) (termId : string)
  (options : Options) (spawned : Try Handle)
  : CreateReply * State * list PtyCall :=
  if negb (pty host) then (CreateError "Terminal not available", st, [])
  else
    let req := spawnRequest host st options in
    match spawned with
    | Ok term =>
        (CreateOk termId,
         {| currentDirectory := currentDirectory st;
            terminals := <[termId := term]> (terminals st);
            mainWindow := mainWindow st |},
         [Spawn req])
    | Throw message => (CreateError message, st, [Spawn req])
    end.

(** [ipcMain.on('terminal-input', ...)].  [thrown] is the error thrown by
    [term.write], if any.  The listener returns nothing; its outcome says
    whether it returned or threw. *)
Definition terminal_input (st : State) (termId data : string)
  (thrown : option string) : Try unit * State * list PtyCall :=
  match terminals st !! termId with
  | Some term =>
      match thrown with
      | None => (Ok (), st, [Write term data])
      | Some _ =>
          (Ok (), set_terminals st (delete termId (terminals st)),
           [Write term data])
      end
  | None => (Ok (), st, [])
  end.

(** [ipcMain.on('terminal-resize', ...)] *)
Definition terminal_resize (st : State) (termId : string) (c r : Z)
  (thrown : option string) : Try unit * State * list PtyCall :=
  match terminals st !! termId with
  | Some term =>
      match thrown with
      | None => (Ok (), st, [Resize term c r])
      | Some _ =>
          (Ok (), set_terminals st (delete termId (terminals st)),
           [Resize term c r])
      end
  | None => (Ok (), st, [])
  end.

(** [ipcMain.handle('close-terminal', ...)]; [term.kill()] is not guarded,
    an error it throws leaves the handler. *)
Definition close_terminal (st : State) (termId : string)
  (thrown : option string) : Try CloseReply * State * list PtyCall :=
  match terminals st !! termId with
  | Some term =>
      match thrown with
      | None =>
          (Ok CloseOk, set_terminals st (delete termId (terminals st)),
           [Kill term])
      | Some message => (Throw message, st, [Kill term])
      end
  | None => (Ok CloseOk, st, [])
  end.

(** The [term.onData] callback registered by [create-terminal]; [termId]
    is the variable the closure captured. *)
Definition on_data (st : State) (termId data : string) : list Event :=
  if mainWindow st then [TerminalOutput termId data] else [].

(** The [term.onExit] callback registered by [create-terminal]. *)
Definition on_exit (st : State) (termId : string) : State * list Event :=
  (set_terminals st (delete termId (terminals st)),
   if mainWindow st then [TerminalClosed termId] else []).

(** [mainWindow.on('closed', ...)]: every pty object of the registry is
    killed, errors ignored, and the registry is cleared.  The kills are
    listed in the order of [map_to_list], not in the insertion order of
    the [Map]. *)
Definition window_closed (st : State) : State * list PtyCall :=
  ({| currentDirectory := currentDirectory st;
      terminals := ∅;
      mainWindow := false |},
   map (fun kv => Kill kv.2) (map_to_list (terminals st))).

(** [createWindow()], run at start-up and on [activate] when no window is
    left. *)
Definition createWindow (st : State) : State :=
  {| currentDirectory := currentDirectory st;
     terminals := terminals st;
     mainWindow := true |}.

(** ** Tmux discovery *)

(** A session as reported to the renderer. *)
Module Tmux.
Record SessionInfo := {
  name : string;
  windows : JS.Number;
  attached : bool
}.
End Tmux.

(** The [.map] callback of [list-tmux-sessions]:
    [const [name, windows, attached] = line.split(':')]. *)
Definition parseLine (line : string) : Tmux.SessionInfo :=
  let parts := JS.split ":" line in
  {| Tmux.name := default "" (parts !! 0%nat);
     Tmux.windows := JS.parseInt (parts !! 1%nat);
     Tmux.attached := match parts !! 2%nat with
                 | Some a => String.eqb a "1"
                 | None => false
                 end |}.

(** [ipcMain.handle('list-tmux-sessions', ...)], from the answer of
    [exec]: the error, or the standard output. *)
Definition list_tmux_sessions (answer : Try string) : list Tmux.SessionInfo :=
  match answer with
  | Throw _ => []
  | Ok stdout =>
      map parseLine
        (filter (fun line => JS.truthy line = true)
           (JS.split "010" (JS.trim stdout)))
  end.

(** ** The main process as a transition system

    The handlers run one at a time on the event loop.  Between them the
    environment delivers renderer requests, pty callbacks and window
    events.  A pty object delivers [onExit] once, and no [onData] after
    it: [Data] and [Exit] are enabled only for a pty object whose exit has
    not been delivered. *)

(** A pty object made by [pty.spawn]: the [termId] captured by the
    callbacks registered on it, and whether its [onExit] has been
    delivered. *)
Record PtyObject := {
  closure_termId : string;
  exited : bool
}.

#[global] Instance PtyObject_eq_dec : EqDecision PtyObject.
Proof. solve_decision. Defined.

Record System := {
  main : State;
  procs : list PtyObject;       (* the pty object [h] is [procs !! h] *)
  sent : list Event;            (* messages pushed to the renderer *)
  ptyCalls : list PtyCall       (* calls made to the pty backend *)
}.

Inductive Input :=
| CreateTerminal (termId : string) (options : Options) (failure : option string)
| TerminalInput (termId data : string) (thrown : option string)
| TerminalResize (termId : string) (c r : Z) (thrown : option string)
| CloseTerminal (termId : string) (thrown : option string)
| Data (term : Handle) (data : string)
| Exit (term : Handle)
| WindowClosed
| Activate
| DirectoryChosen (dir : string).

Definition initial : System :=
  {| main := {| currentDirectory := None; terminals := ∅;
                mainWindow := true |};
     procs := []; sent := []; ptyCalls := [] |}.

Definition step (host : Host) (s : System) (i : Input) : option System :=
  match i with
  | CreateTerminal termId options failure =>
      let term := length (procs s) in
      let spawned := match failure with Some m => Throw m | None => Ok term end in
      let '(_, st, calls) := create_terminal host (main s) termId options spawned in
      Some {| main := st;
              procs := if pty host
                       then match failure with
                            | None =>
                                procs s ++ [{| closure_termId := termId;
                                               exited := false |}]
                            | Some _ => procs s
                            end
                       else procs s;
              sent := sent s;
              ptyCalls := ptyCalls s ++ calls |}
  | TerminalInput termId data thrown =>
      let '(_, st, calls) := terminal_input (main s) termId data thrown in
      Some {| main := st; procs := procs s; sent := sent s;
              ptyCalls := ptyCalls s ++ calls |}
  | TerminalResize termId c r thrown =>
      let '(_, st, calls) := terminal_resize (main s) termId c r thrown in
      Some {| main := st; procs := procs s; sent := sent s;
              ptyCalls := ptyCalls s ++ calls |}
  | CloseTerminal termId thrown =>
      let '(_, st, calls) := close_terminal (main s) termId thrown in
      Some {| main := st; procs := procs s; sent := sent s;
              ptyCalls := ptyCalls s ++ calls |}
  | Data term data =>
      match procs s !! term with
      | Some {| closure_termId := termId; exited := false |} =>
          Some {| main := main s; procs := procs s;
                  sent := sent s ++ on_data (main s) termId data;
                  ptyCalls := ptyCalls s |}
      | _ => None
      end
  | Exit term =>
      match procs s !! term with
      | Some {| closure_termId := termId; exited := false |} =>
          let '(st, evs) := on_exit (main s) termId in
          Some {| main := st;
                  procs := <[term := {| closure_termId := termId;
                                        exited := true |}]> (procs s);
                  sent := sent s ++ evs; ptyCalls := ptyCalls s |}
      | _ => None
      end
  | WindowClosed =>
      let '(st, calls) := window_closed (main s) in
      Some {| main := st; procs := procs s; sent := sent s;
              ptyCalls := ptyCalls s ++ calls |}
  | Activate =>
      Some {| main := createWindow (main s); procs := procs s;
              sent := sent s; ptyCalls := ptyCalls s |}
  | DirectoryChosen dir =>
      Some {| main := {| currentDirectory := Some dir;
                         terminals := terminals (main s);
                         mainWindow := mainWindow (main s) |};
              procs := procs s; sent := sent s; ptyCalls := ptyCalls s |}
  end.

Fixpoint run (host : Host) (s : System) (inputs : list Input) : option System :=
  match inputs with
  | [] => Some s
  | i :: inputs' =>
      match step host s i with
      | Some s' => run host s' inputs'
      | None => None
      end
  end.

(** The [terminal-closed] events for [termId] among the messages sent. *)
Definition closedCount (termId : string) (evs : list Event) : nat :=
  length (filter (fun e => e = TerminalClosed termId) evs).

(** The pty objects created for [termId], and those of them whose exit
    has been delivered. *)
Definition sessionsOf (termId : string) (s : System) : list PtyObject :=
  filter (fun p => closure_termId p = termId) (procs s).

Definition exitedSessionsOf (termId : string) (s : System) : list PtyObject :=
  filter (fun p => p = {| closure_termId := termId; exited := true |}) (procs s).

(** The pty object a call is made on. *)
Definition targetOf (c : PtyCall) : option Handle :=
  match c with
  | Spawn _ => None
  | Write term _ => Some term
  | Resize term _ _ => Some term
  | Kill term => Some term
  end.

(** Input and resize requests for one session ID. *)
Definition inputOrResizeFor (termId : string) (i : Input) : Prop :=
  match i with
  | TerminalInput id _ _ => id = termId
  | TerminalResize id _ _ _ => id = termId
  | _ => False
  end.


(** ** Sample data *)

Definition oneTerminal : System :=
  {| main := {| currentDirectory := None; terminals := {["t1" := 0%nat]};
                mainWindow := true |};
     procs := [{| closure_termId := "t1"; exited := false |}];
     sent := []; ptyCalls := [] |}.

Definition host0 : Host :=
  {| homedir := "/Users/u"; cwd := "/Users/u"; env_SHELL := Some "/bin/zsh";
     pty := true |}.


Definition noOptions : Options :=
  {| type := None; session := None; cols := None; rows := None |}.

Definition tmuxOptions : Options :=
  {| type := Some "tmux"; session := Some "proj"; cols := None; rows := None |}.

(** ** Statements about the handlers *)

(** A second [create] for a live ID is rejected: the reply is an error,
    nothing is spawned and the entry of the ID is the one it was. *)
Definition rejectsDuplicate (host : Host) (st : State) (termId : string)
  (options : Options) (spawned : Try Handle) : Prop :=
  let '(reply, st', calls) := create_terminal host st termId options spawned in
  (exists e, reply = CreateError e) /\
  calls = [] /\
  terminals st' !! termId = terminals st !! termId.

(** [p] is [root] or lies below it: containment by path segments. *)
Definition under (root p : string) : bool :=
  String.eqb p root || JS.startsWith p (root +:+ "/").

(** ** The output of [tmux list-sessions]

    [tmux list-sessions -F "#{session_name}:#{session_windows}:#{session_attached}"]
    prints one line per session: the name, in UTF-8, and the two counts
    in decimal. *)

Definition LF : ascii := "010"%char.

(** The decimal numeral with digits [ds], most significant first, and
    its value. *)
Definition digitChar (d : nat) : ascii := ascii_of_nat (48 + d).
Definition numeral (ds : list nat) : list ascii := map digitChar ds.
Definition numeralValue (ds : list nat) : Z :=
  fold_left (fun acc d => acc * 10 + Z.of_nat d) ds 0.

Definition isNumeral (ds : list nat) : Prop :=
  ds <> [] /\ Forall (fun d => (d < 10)%nat) ds.

(** A session of the tmux server: its name and the digits of its two
    counts. *)
Record TmuxSession := {
  session_name : list ascii;
  session_windows : list nat;
  session_attached : list nat
}.

(** A name that stays in its field and on its line: no colon and no line
    feed.  Blanks are allowed anywhere in it. *)
Definition printableName (n : list ascii) : Prop :=
  (":"%char ∉ n) /\ (LF ∉ n).

Definition wellFormed (s : TmuxSession) : Prop :=
  printableName (session_name s) /\
  isNumeral (session_windows s) /\
  isNumeral (session_attached s).

#[global] Instance printableName_dec (n : list ascii) : Decision (printableName n).
Proof. unfold printableName. apply _. Defined.

#[global] Instance isNumeral_dec (ds : list nat) : Decision (isNumeral ds).
Proof. unfold isNumeral. apply _. Defined.

#[global] Instance wellFormed_dec (s : TmuxSession) : Decision (wellFormed s).
Proof. unfold wellFormed. apply _. Defined.

Definition renderSession (s : TmuxSession) : list ascii :=
  session_name s ++ (":"%char :: numeral (session_windows s))
    ++ (":"%char :: numeral (session_attached s)).

Definition renderSessions (l : list TmuxSession) : string :=
  JS.str (concat (map (fun s => renderSession s ++ [LF]) l)).

(** What the renderer is to be told about the session: its name, its
    window count as a Number, and whether the flag is ["1"]. *)
Definition infoOf (s : TmuxSession) : Tmux.SessionInfo :=
  {| Tmux.name := JS.str (session_name s);
     Tmux.windows := JS.number 1 (numeralValue (session_windows s));
     Tmux.attached := String.eqb (JS.str (numeral (session_attached s))) "1" |}.

(** What [stdout.trim()] makes of the listing: the white space in front
    of the first name is gone. *)
Definition trimmedName (s : TmuxSession) : TmuxSession :=
  {| session_name := JS.trimStart_chars (session_name s);
     session_windows := session_windows s;
     session_attached := session_attached s |}.

Definition firstNameTrimmed (l : list TmuxSession) : list TmuxSession :=
  match l with
  | s :: l' => trimmedName s :: l'
  | [] => []
  end.

(** A line ends with a digit: a character of one byte that is no white
    space. *)
Definition endsLine (c : ascii) : Prop :=
  JS.isWhiteSpace c = false /\ JS.tailByte c = false.

Definition fixtureSessions : list TmuxSession :=
  [ {| session_name := JS.chars "proj"; session_windows := [3%nat];
       session_attached := [1%nat] |};
    {| session_name := JS.chars "build"; session_windows := [1%nat];
       session_attached := [0%nat] |} ].

(** A server whose first session was created with [tmux new -s " work"]. *)
Definition blankFirstSessions : list TmuxSession :=
  [ {| session_name := JS.chars " work"; session_windows := [1%nat];
       session_attached := [0%nat] |};
    {| session_name := JS.chars " play"; session_windows := [2%nat];
       session_attached := [1%nat] |} ].

(** ** Orders *)

(** A comparator is consistent, as [Array.prototype.sort] requires, when
    swapping its arguments flips its sign and "not after" is transitive. *)
Definition consistent {A : Type} (cmp : A -> A -> Z) : Prop :=
  (forall a b, Z.sgn (cmp b a) = - Z.sgn (cmp a b)) /\
  (forall a b c, cmp a b <= 0 -> cmp b c <= 0 -> cmp a c <= 0).

(** [a] is not after [b] by name, case ignored. *)
Definition byName (localeCompare : string -> string -> Z) (a b : FileEntry) : Prop :=
  localeCompare (JS.toLowerCase (name a)) (JS.toLowerCase (name b)) <= 0.

(** The entries that [list-files] shows. *)
Definition shown (entry : Fs.Dirent) : bool := notHidden entry && allowed entry.

(** A collation for the examples, by code units. *)
Definition codeUnitCompare (a b : string) : Z :=
  match String.compare a b with Lt => -1 | Eq => 0 | Gt => 1 end.

(** A root [/w] that holds [b.txt], [A.tex], [.hidden] and the directory
    [sub]. *)
Definition sampleEntries : list Fs.Dirent :=
  [ {| Fs.name := "b.txt"; Fs.isDirectory := false |};
    {| Fs.name := "A.tex"; Fs.isDirectory := false |};
    {| Fs.name := ".hidden"; Fs.isDirectory := false |};
    {| Fs.name := "sub"; Fs.isDirectory := true |} ].

Definition sampleFs : Fs.FileSystem :=
  {| Fs.stat := fun _ => None;
     Fs.readdir := fun p => if String.eqb p "/w" then Ok sampleEntries
                            else Throw "ENOENT";
     Fs.readFile := fun _ => Throw "ENOENT";
     Fs.writeFile := fun _ _ => Throw "EACCES" |}.

(** ** Statements about runs *)

(** The registry holds, under each ID, a pty object created for that ID
    whose exit has not been delivered. *)
Definition registryLive (s : System) : Prop :=
  forall termId term,
    terminals (main s) !! termId = Some term ->
    procs s !! term = Some {| closure_termId := termId; exited := false |}.

(** No more [terminal-closed] events for an ID than sessions of that ID
    whose exit has been delivered. *)
Definition closedBounded (s : System) : Prop :=
  forall termId,
    (closedCount termId (sent s) <= length (exitedSessionsOf termId s))%nat.

(** At the end of the run, every ID that was used by one session, whose
    process has exited, has exactly one [terminal-closed] event. *)
Definition closedExactlyOnce (host : Host) (inputs : list Input) : Prop :=
  forall s termId,
    run host initial inputs = Some s ->
    sessionsOf termId s = [{| closure_termId := termId; exited := true |}] ->
    closedCount termId (sent s) = 1%nat.

(** A session is created, the window is closed, the process exits. *)
Definition windowClosedRun : list Input :=
  [CreateTerminal "t1" noOptions None; WindowClosed; Exit 0%nat].

(** A session is created and its process exits while the window is
    there. *)
Definition plainRun : list Input :=
  [CreateTerminal "t1" noOptions None; TerminalInput "t1" "ls" None;
   Exit 0%nat].

(** ** The remaining directory handlers *)

(** [ipcMain.handle('get-current-directory', ...)]; [None] is [null]. *)
Definition get_current_directory (currentDirectory : option string)
  : option DirReply :=
  match currentDirectory with
  | Some cd => if JS.truthy cd then Some (DirOk cd (Path.basename cd)) else None
  | None => None
  end.

(** The answer of [dialog.showOpenDialog]. *)
Record DialogResult := { canceled : bool; filePaths : list string }.

(** [ipcMain.handle('open-directory-dialog', ...)]: the reply and the new
    value of [currentDirectory]. *)
Definition open_directory_dialog (currentDirectory : option string)
  (result : DialogResult) : option DirReply * option string :=
  if negb (canceled result) && (0 <? length (filePaths result))%nat then
    match filePaths result with
    | dir :: _ => (Some (DirOk dir (Path.basename dir)), Some dir)
    | [] => (None, currentDirectory)
    end
  else (None, currentDirectory).

(** ** Paths in normal form *)

(** A segment that [path.normalize] keeps as it is. *)
Definition plainSegment (s : string) : Prop :=
  s <> "" /\ s <> "." /\ s <> ".." /\ ("/"%char ∉ JS.chars s).

#[global] Instance plainSegment_dec (s : string) : Decision (plainSegment s).
Proof. unfold plainSegment. apply _. Defined.

(** The absolute path with the segments [segs]; [/] for none. *)
Definition absolutePath (segs : list string) : string :=
  "/" +:+ String.concat "/" segs.

(** The segments that [normalizeString] does not drop on sight. *)
Definition keptSegment (s : string) : bool :=
  negb (String.eqb s "" || String.eqb s ".").

(** The relative path that climbs [k] levels: [..], [../..], ... *)
Definition climb (k : nat) : string := String.concat "/" (repeat ".." k).

(** A file system that holds the directory [/Users/u/tex]. *)
Definition homeFs : Fs.FileSystem :=
  {| Fs.stat := fun p => if String.eqb p "/Users/u/tex"
                         then Some {| Fs.stat_isDirectory := true; Fs.mtimeMs := 0 |}
                         else None;
     Fs.readdir := fun _ => Throw "ENOENT";
     Fs.readFile := fun _ => Throw "ENOENT";
     Fs.writeFile := fun _ _ => Throw "EACCES" |}.

(** The path a file-system call is made on. *)
Definition pathOf (c : Fs.Call) : string :=
  match c with
  | Fs.ExistsSync p => p
  | Fs.StatSync p => p
  | Fs.ReaddirSync p => p
  | Fs.ReadFileSync p => p
  | Fs.WriteFileSync p _ => p
  end.

(** The calls are none, or one call on a path that starts with the
    characters of the workspace root. *)
Definition confined (currentDirectory : option string) (calls : list Fs.Call)
  : Prop :=
  calls = [] \/
  exists root c,
    currentDirectory = Some root /\ calls = [c] /\
    JS.startsWith (pathOf c) root = true.

(** How many of the three content flags of an entry are set. *)
Definition contentFlags (f : FileEntry) : nat :=
  ((if isText f then 1 else 0) + (if isPdf f then 1 else 0) +
   (if isImage f then 1 else 0))%nat.

(** ** More statements about runs *)

(** The pty object [term] is in the registry. *)
Definition registered (s : System) (term : Handle) : Prop :=
  exists termId, terminals (main s) !! termId = Some term.

(** The calls made after the state [s], in a later state [s']. *)
Definition callsSince (s s' : System) : list PtyCall :=
  drop (length (ptyCalls s)) (ptyCalls s').

(** The [terminal-output] messages among the messages sent. *)
Definition isOutput (e : Event) : bool :=
  match e with TerminalOutput _ _ => true | TerminalClosed _ => false end.

Definition outputsOf (evs : list Event) : list Event :=
  filter (fun e => isOutput e = true) evs.

(** The [terminal-output] messages that the [Data] inputs of a run ask
    for, in order; [ps] gives the ID each pty object was created for. *)
Definition dataOutputs (ps : list PtyObject) (inputs : list Input) : list Event :=
  flat_map (fun i =>
              match i with
              | Data term data =>
                  match ps !! term with
                  | Some p => [TerminalOutput (closure_termId p) data]
                  | None => []
                  end
              | _ => []
              end) inputs.

(** A session is created, closed, and created again under the same ID,
    before the exit of the first process is delivered. *)
Definition reuseRun : list Input :=
  [CreateTerminal "t1" noOptions None; CloseTerminal "t1" None;
   CreateTerminal "t1" noOptions None].

(** Two creates of one ID, back to back. *)
Definition duplicateRun : list Input :=
  [CreateTerminal "t1" noOptions None; CreateTerminal "t1" noOptions None].

Definition noPtyHost : Host :=
  {| homedir := "/Users/u"; cwd := "/Users/u"; env_SHELL := None; pty := false |}.

Definition closesWindow (i : Input) : bool :=
  match i with WindowClosed => true | _ => false end.

(** Two sessions run side by side and print in turn. *)
Definition interleavedRun : list Input :=
  [CreateTerminal "a" noOptions None; CreateTerminal "b" tmuxOptions None;
   Data 0%nat "1"; Data 1%nat "2"; TerminalResize "a" 100 30 None;
   Data 0%nat "3"; Exit 1%nat; Data 0%nat "4"].

(** Nothing has happened on the terminal side. *)
Definition quiet (s : System) : Prop :=
  terminals (main s) = ∅ /\ procs s = [] /\ ptyCalls s = [] /\ sent s = [].

Definition noPtyRun : list Input :=
  [CreateTerminal "t1" noOptions None; TerminalInput "t1" "ls" None;
   WindowClosed; Activate].

Definition twoSessionsRun : list Input :=
  [CreateTerminal "a" noOptions None; CreateTerminal "b" noOptions None].

(** A closed session, and requests that come after the close. *)
Definition closedRun : list Input :=
  [CreateTerminal "t1" noOptions None; CloseTerminal "t1" None].

Definition afterClose : list Input :=
  [TerminalInput "t1" "ls" None; CreateTerminal "t2" noOptions None;
   TerminalInput "t2" "pwd" None; WindowClosed].

(** ** The builtins on sample inputs *)

Module Examples.
Example join_plain : Path.join ["/home/u/proj"; "a/b.tex"] = "/home/u/proj/a/b.tex".
Proof. reflexivity. Qed.
Example join_dotdot : Path.join ["/home/u/proj"; "../x"] = "/home/u/x".
Proof. reflexivity. Qed.
Example join_above_root : Path.join ["/a"; "../../.."] = "/".
Proof. reflexivity. Qed.
Example join_trailing : Path.join ["/a"; "b/"] = "/a/b/".
Proof. reflexivity. Qed.
Example join_absolute_looking : Path.join ["/a"; "/etc/passwd"] = "/a/etc/passwd".
Proof. reflexivity. Qed.
Example normalize_relative : Path.normalize "../a/./b/../c" = "../a/c".
Proof. reflexivity. Qed.
Example resolve_relative : Path.resolve "/home/u" "w/../x/" = "/home/u/x".
Proof. reflexivity. Qed.
Example resolve_absolute : Path.resolve "/home/u" "/tmp//y/" = "/tmp/y".
Proof. reflexivity. Qed.
Example basename_dir : Path.basename "/home/u/proj/" = "proj".
Proof. reflexivity. Qed.
Example extname_tex : Path.extname "A.TeX" = ".TeX".
Proof. reflexivity. Qed.
Example extname_two : Path.extname "a.tar.gz" = ".gz".
Proof. reflexivity. Qed.
Example extname_none : Path.extname "Makefile" = "".
Proof. reflexivity. Qed.
Example extname_final_dot : Path.extname "a." = ".".
Proof. reflexivity. Qed.
Example parseInt_3 : JS.parseInt (Some "3") = JS.Finite 3.
Proof. reflexivity. Qed.
Example parseInt_garbage : JS.parseInt (Some " 12px") = JS.Finite 12.
Proof. reflexivity. Qed.
Example parseInt_nan : JS.parseInt (Some "x") = JS.NaN.
Proof. reflexivity. Qed.
Example trim_ex : JS.trim "  a b
" = "a b".
Proof. reflexivity. Qed.
Example split_ex : JS.split ":" "proj:3:1" = ["proj"; "3"; "1"].
Proof. reflexivity. Qed.
Example parseInt_rounded :
  JS.parseInt (Some "9007199254740993") = JS.Finite 9007199254740992.
Proof. reflexivity. Qed.
Example parseInt_tie_even :
  JS.parseInt (Some "9007199254740995") = JS.Finite 9007199254740996.
Proof. reflexivity. Qed.
Example parseInt_hex : JS.parseInt (Some "-0x1F") = JS.Finite (-31).
Proof. reflexivity. Qed.
Example parseInt_minus_zero : JS.parseInt (Some "-0") = JS.NegZero.
Proof. reflexivity. Qed.
Example parseInt_nbsp :
  JS.parseInt (Some (String "194" (String "160" "7"))) = JS.Finite 7.
Proof. reflexivity. Qed.
Example trim_wide :
  JS.trim (JS.str ["239"; "187"; "191"; "x"; "194"; "160"; "227"; "128";
                   "128"; " "; "226"; "128"; "168"]%char) = "x".
Proof. reflexivity. Qed.
Example trim_keeps_letters :
  JS.trim (JS.str ["195"; "169"; "226"; "128"; "139"]%char) =
    JS.str ["195"; "169"; "226"; "128"; "139"]%char.
Proof. reflexivity. Qed.
Example trim_nbsp : JS.trim (String "194" (String "160" "a b ")) = "a b".
Proof. reflexivity. Qed.
End Examples.

(** * Properties *)

(** ** Empty relative path *)

(** C9: with a workspace root set, [readFile], [saveFile], [getFilePath]
    and [getFileMtime] called with the empty relative path do not resolve
    to the root: the first two reply with an error, the last two with
    [null] and [{mtime: null}], and none of them calls the file system. *)
Theorem empty_path_not_root (fs : Fs.FileSystem) (root content : string) :
  read_file fs (Some root) "" = (ReadError "Invalid request", []) /\
  save_file fs (Some root) "" content = (SaveError "Invalid request", []) /\
  get_file_path fs (Some root) "" = (None, []) /\
  get_file_mtime fs (Some root) "" = (MtimeNull, []).
Proof.
  unfold read_file, save_file, get_file_path, get_file_mtime, validRequest.
  destruct root; simpl; auto.
Qed.

(** ** Requests for an unknown session *)

(** C4: for a session ID with no entry in the registry, the input and
    resize listeners return without touching a pty object and the close
    handler replies [{status: 'ok'}]; none throws, and the state is
    unchanged. *)
Theorem unknown_session_noop (st : State) (termId data : string) (c r : Z)
  (thrown : option string) :
  terminals st !! termId = None ->
  terminal_input st termId data thrown = (Ok (), st, []) /\
  terminal_resize st termId c r thrown = (Ok (), st, []) /\
  close_terminal st termId thrown = (Ok CloseOk, st, []).
Proof.
  intros Habsent.
  unfold terminal_input, terminal_resize, close_terminal.
  rewrite Habsent. auto.
Qed.

Lemma unknown_session_noop_witness :
  terminal_input (main initial) "t1" "ls" (Some "EIO") = (Ok (), main initial, []) /\
  terminal_resize (main initial) "t1" 100 40 (Some "EIO") = (Ok (), main initial, []) /\
  close_terminal (main initial) "t1" (Some "EIO") = (Ok CloseOk, main initial, []).
Proof.
  apply (unknown_session_noop (main initial) "t1" "ls" 100 40 (Some "EIO")).
  reflexivity.
Defined.

(** ** A handle that failed *)

Lemma set_terminals_same (st : State) : set_terminals st (terminals st) = st.
Proof. destruct st; reflexivity. Qed.

Lemma step_unknown_session (host : Host) (s : System) (termId : string)
  (i : Input) :
  terminals (main s) !! termId = None ->
  inputOrResizeFor termId i ->
  step host s i = Some s.
Proof.
  intros Habsent Hi.
  destruct i; simpl in Hi; try contradiction; subst; destruct s as [st ps ev pc];
    simpl in *.
  - unfold terminal_input. rewrite Habsent. by rewrite app_nil_r.
  - unfold terminal_resize. rewrite Habsent. by rewrite app_nil_r.
Qed.

Lemma run_unknown_session (host : Host) (s : System) (termId : string)
  (inputs : list Input) :
  terminals (main s) !! termId = None ->
  Forall (inputOrResizeFor termId) inputs ->
  run host s inputs = Some s.
Proof.
  intros Habsent Hall.
  induction Hall as [|i inputs Hi _ IH]; [reflexivity|].
  cbn [run]. by rewrite (step_unknown_session host s termId i Habsent Hi).
Qed.

(** C10: when [term.write] or [term.resize] throws on the pty object of a
    live session, the listener removes the session's entry from the
    registry; every later input or resize request for the same ID then
    finds no entry: the state stays as it is and no call reaches the pty
    backend. *)
Theorem failed_handle_dropped (host : Host) (s s1 : System) (termId : string)
  (term : Handle) (data : string) (c r : Z) (message : string)
  (later : list Input) :
  terminals (main s) !! termId = Some term ->
  step host s (TerminalInput termId data (Some message)) = Some s1 \/
  step host s (TerminalResize termId c r (Some message)) = Some s1 ->
  Forall (inputOrResizeFor termId) later ->
  terminals (main s1) !! termId = None /\
  (ptyCalls s1 = ptyCalls s ++ [Write term data] \/
   ptyCalls s1 = ptyCalls s ++ [Resize term c r]) /\
  run host s1 later = Some s1.
Proof.
  intros Hlive Hstep Hlater.
  assert (terminals (main s1) !! termId = None /\
          (ptyCalls s1 = ptyCalls s ++ [Write term data] \/
           ptyCalls s1 = ptyCalls s ++ [Resize term c r])) as [Habsent Hcalls].
  { destruct Hstep as [Hstep|Hstep]; simpl in Hstep;
      [unfold terminal_input in Hstep|unfold terminal_resize in Hstep];
      rewrite Hlive in Hstep; injection Hstep as <-; simpl;
      (split; [apply lookup_delete_eq|auto]). }
  split; [assumption|]. split; [assumption|].
  exact (run_unknown_session host s1 termId later Habsent Hlater).
Qed.

Lemma failed_handle_dropped_witness :
  let s1 := {| main := {| currentDirectory := None; terminals := delete "t1" {["t1" := 0%nat]};
                          mainWindow := true |};
               procs := procs oneTerminal; sent := [];
               ptyCalls := [Write 0%nat "ls"] |} in
  terminals (main s1) !! "t1" = None /\
  (ptyCalls s1 = ptyCalls oneTerminal ++ [Write 0%nat "ls"] \/
   ptyCalls s1 = ptyCalls oneTerminal ++ [Resize 0%nat 80 24]) /\
  run host0 s1 [TerminalInput "t1" "pwd" None; TerminalResize "t1" 90 30 None] = Some s1.
Proof.
  intros s1.
  apply (failed_handle_dropped host0 oneTerminal s1 "t1" 0%nat "ls" 80 24 "EIO").
  - reflexivity.
  - left. reflexivity.
  - repeat constructor.
Defined.

(** ** Spawn policy *)

(** C6: what [create-terminal] spawns.  With [type: 'tmux'] and a session
    name the command is the tmux binary with [attach -t <name>]; otherwise
    it is the shell of [$SHELL] ([/bin/bash] when that is unset) with [-l];
    the working directory is the workspace root, or the home directory when
    no root is set; the size is 80 by 24 unless [cols] and [rows] are
    given. *)
Theorem spawn_policy (host : Host) (st : State) (termId : string)
  (options : Options) (spawned : Try Handle) :
  pty host = true ->
  let req := spawnRequest host st options in
  (create_terminal host st termId options spawned).2 = [Spawn req] /\
  spawn_name req = "xterm-256color" /\
  (forall sessionName,
      type options = Some "tmux" -> session options = Some sessionName ->
      sessionName <> "" ->
      spawn_file req = "/opt/homebrew/bin/tmux" /\
      spawn_args req = ["attach"; "-t"; sessionName]) /\
  (type options <> Some "tmux" \/ session options = None \/
   session options = Some "" ->
      spawn_file req = JS.or_str (env_SHELL host) "/bin/bash" /\
      spawn_args req = ["-l"]) /\
  (forall sh, env_SHELL host = Some sh -> sh <> "" ->
      JS.or_str (env_SHELL host) "/bin/bash" = sh) /\
  (forall root, currentDirectory st = Some root -> root <> "" ->
      spawn_cwd req = root) /\
  (currentDirectory st = None -> spawn_cwd req = homedir host) /\
  (cols options = None -> spawn_cols req = 80) /\
  (rows options = None -> spawn_rows req = 24) /\
  (forall c, cols options = Some c -> c <> 0 -> spawn_cols req = c) /\
  (forall r, rows options = Some r -> r <> 0 -> spawn_rows req = r).
Proof.
  intros Hpty req. subst req.
  assert (Hshell : type options <> Some "tmux" \/ session options = None \/
                   session options = Some "" ->
                   (match type options with
                    | Some t => String.eqb t "tmux"
                    | None => false
                    end && JS.truthy_opt (session options)) = false).
  { intros [H|[H|H]].
    - destruct (type options) as [t|]; [|reflexivity].
      destruct (String.eqb_spec t "tmux"); [by subst|reflexivity].
    - rewrite H. apply andb_false_r.
    - rewrite H. apply andb_false_r. }
  split; [unfold create_terminal; rewrite Hpty; by destruct spawned|].
  unfold spawnRequest.
  split; [by destruct (_ && _)|].
  split.
  { intros sessionName -> -> Hne. simpl. by destruct sessionName. }
  split.
  { intros H. by rewrite (Hshell H). }
  split.
  { intros sh -> Hsh. by destruct sh. }
  split.
  { intros root -> Hne. destruct (_ && _); simpl; by destruct root. }
  split.
  { intros ->. by destruct (_ && _). }
  split.
  { intros ->. by destruct (_ && _). }
  split.
  { intros ->. by destruct (_ && _). }
  split.
  { intros c -> Hne. destruct (_ && _); simpl; by destruct (Z.eqb_spec c 0). }
  intros r -> Hne. destruct (_ && _); simpl; by destruct (Z.eqb_spec r 0).
Qed.

Lemma spawn_policy_witness :
  let req := spawnRequest host0 (main initial) tmuxOptions in
  (create_terminal host0 (main initial) "t1" tmuxOptions (Ok 0%nat)).2 = [Spawn req] /\
  spawn_name req = "xterm-256color" /\
  (forall sessionName,
      type tmuxOptions = Some "tmux" -> session tmuxOptions = Some sessionName ->
      sessionName <> "" ->
      spawn_file req = "/opt/homebrew/bin/tmux" /\
      spawn_args req = ["attach"; "-t"; sessionName]) /\
  (type tmuxOptions <> Some "tmux" \/ session tmuxOptions = None \/
   session tmuxOptions = Some "" ->
      spawn_file req = JS.or_str (env_SHELL host0) "/bin/bash" /\
      spawn_args req = ["-l"]) /\
  (forall sh, env_SHELL host0 = Some sh -> sh <> "" ->
      JS.or_str (env_SHELL host0) "/bin/bash" = sh) /\
  (forall root, currentDirectory (main initial) = Some root -> root <> "" ->
      spawn_cwd req = root) /\
  (currentDirectory (main initial) = None -> spawn_cwd req = homedir host0) /\
  (cols tmuxOptions = None -> spawn_cols req = 80) /\
  (rows tmuxOptions = None -> spawn_rows req = 24) /\
  (forall c, cols tmuxOptions = Some c -> c <> 0 -> spawn_cols req = c) /\
  (forall r, rows tmuxOptions = Some r -> r <> 0 -> spawn_rows req = r).
Proof.
  apply (spawn_policy host0 (main initial) "t1" tmuxOptions (Ok 0%nat)).
  reflexivity.
Defined.

(** ** Setting the workspace root *)

(** C8: [set-directory] checks that the resolved path exists and is a
    directory.  If so the workspace root becomes the resolved path and the
    reply carries it; if not the reply is an error and the workspace root
    is what it was. *)
Theorem set_directory_verified (host : Host) (fs : Fs.FileSystem)
  (root : option string) (dirPath : string) :
  let fullPath :=
    Path.resolve (cwd host) (JS.replace_leading_tilde dirPath (homedir host)) in
  let '(reply, root', _) := set_directory host fs root dirPath in
  ((exists st, Fs.stat fs fullPath = Some st /\ Fs.stat_isDirectory st = true) /\
   reply = Ok (DirOk fullPath (Path.basename fullPath)) /\
   root' = Some fullPath) \/
  ((Fs.stat fs fullPath = None \/
    exists st, Fs.stat fs fullPath = Some st /\ Fs.stat_isDirectory st = false) /\
   reply = Ok (DirError "Directory not found") /\
   root' = root).
Proof.
  unfold set_directory, Fs.existsSync, Fs.statSync.
  destruct (Fs.stat fs _) as [st|] eqn:Hstat; simpl.
  - destruct (Fs.stat_isDirectory st) eqn:Hdir.
    + left. split; [by exists st|done].
    + right. split; [right; by exists st|done].
  - right. split; [by left|done].
Qed.

(** ** Creating a session twice *)

(** C2, as the code has it: [create-terminal] does not look the ID up.
    For an ID that has a live entry, a create whose spawn succeeds replies
    [{status: 'ok'}], spawns a new process and overwrites the entry of the
    ID with the new pty object; the first pty object is not killed and the
    entries of the other IDs stay.  A create whose spawn throws replies
    with the error and leaves the registry as it was. *)
Theorem duplicate_create_overwrites (host : Host) (st : State)
  (termId : string) (options : Options) (first term : Handle)
  (message : string) :
  pty host = true ->
  terminals st !! termId = Some first ->
  (let '(reply, st', calls) :=
     create_terminal host st termId options (Ok term) in
   reply = CreateOk termId /\
   calls = [Spawn (spawnRequest host st options)] /\
   terminals st' !! termId = Some term /\
   (forall id, id <> termId -> terminals st' !! id = terminals st !! id)) /\
  create_terminal host st termId options (Throw message) =
    (CreateError message, st, [Spawn (spawnRequest host st options)]).
Proof.
  intros Hpty _. unfold create_terminal. rewrite Hpty. simpl.
  repeat split.
  - apply lookup_insert_eq.
  - intros id Hne. by apply lookup_insert_ne.
Qed.

Lemma duplicate_create_overwrites_witness :
  (let '(reply, st', calls) :=
     create_terminal host0 (main oneTerminal) "t1" noOptions (Ok 1%nat) in
   reply = CreateOk "t1" /\
   calls = [Spawn (spawnRequest host0 (main oneTerminal) noOptions)] /\
   terminals st' !! "t1" = Some 1%nat /\
   (forall id, id <> "t1" ->
      terminals st' !! id = terminals (main oneTerminal) !! id)) /\
  create_terminal host0 (main oneTerminal) "t1" noOptions (Throw "ENOENT") =
    (CreateError "ENOENT", main oneTerminal,
     [Spawn (spawnRequest host0 (main oneTerminal) noOptions)]).
Proof.
  apply (duplicate_create_overwrites host0 (main oneTerminal) "t1" noOptions
           0%nat 1%nat "ENOENT"); reflexivity.
Defined.

(** The second of two back-to-back creates of ["t1"] is not rejected: it
    replies [{status: 'ok'}], spawns, and the entry of ["t1"] changes. *)
Lemma duplicate_create_accepted :
  terminals (main oneTerminal) !! "t1" = Some 0%nat /\
  ~ rejectsDuplicate host0 (main oneTerminal) "t1" noOptions (Ok 1%nat).
Proof.
  split; [reflexivity|].
  unfold rejectsDuplicate. simpl.
  intros [[e He] _]. discriminate.
Qed.

(** ** Path containment *)

Section Containment.
Variable localeCompare : string -> string -> Z.
Variable fs : Fs.FileSystem.

(** What the check of the handlers does ensure: a request whose joined
    path does not start with the characters of the root is turned down
    without any call to the file system. *)
Lemma not_prefixed_rejected (root p content : string) :
  root <> "" -> p <> "" ->
  JS.startsWith (Path.join [root; p]) root = false ->
  list_files localeCompare fs (Some root) p = (ListError "Invalid path" [], []) /\
  read_file fs (Some root) p = (ReadError "Invalid path", []) /\
  save_file fs (Some root) p content = (SaveError "Invalid path", []) /\
  get_file_path fs (Some root) p = (None, []) /\
  get_file_mtime fs (Some root) p = (MtimeNull, []).
Proof.
  intros Hroot Hp Hprefix.
  unfold list_files, read_file, save_file, get_file_path, get_file_mtime,
    validRequest.
  destruct root as [|c root]; [done|]. destruct p as [|d p]; [done|].
  cbn [JS.truthy negb andb]. by rewrite Hprefix.
Qed.

(** C1, on a sibling of the root whose name extends the name of the
    root: with root [/home/u/proj], the relative path
    [../proj2/notes.tex] resolves to [/home/u/proj2/notes.tex], which is
    not under the root, yet no handler turns the request down: each one
    goes to the file system with the outside path. *)
Theorem sibling_directory_not_rejected (content : string) :
  let root := "/home/u/proj" in
  let p := "../proj2/notes.tex" in
  let outside := "/home/u/proj2/notes.tex" in
  Path.join [root; p] = outside /\
  under root outside = false /\
  (list_files localeCompare fs (Some root) "../proj2").2 =
    [Fs.ReaddirSync "/home/u/proj2"] /\
  (read_file fs (Some root) p).2 = [Fs.ReadFileSync outside] /\
  (save_file fs (Some root) p content).2 = [Fs.WriteFileSync outside content] /\
  (get_file_path fs (Some root) p).2 = [Fs.ExistsSync outside] /\
  (get_file_mtime fs (Some root) p).2 = [Fs.StatSync outside].
Proof.
  cbv zeta.
  split; [reflexivity|]. split; [reflexivity|].
  unfold list_files, read_file, save_file, get_file_path, get_file_mtime,
    Fs.existsSync, Fs.statSync.
  repeat split.
  - change (Path.join ["/home/u/proj"; "../proj2"]) with "/home/u/proj2".
    cbn. by destruct (Fs.readdir fs _).
  - change (Path.join ["/home/u/proj"; "../proj2/notes.tex"])
      with "/home/u/proj2/notes.tex".
    cbn. by destruct (Fs.readFile fs _).
  - change (Path.join ["/home/u/proj"; "../proj2/notes.tex"])
      with "/home/u/proj2/notes.tex".
    cbn. by destruct (Fs.writeFile fs _ _).
  - change (Path.join ["/home/u/proj"; "../proj2/notes.tex"])
      with "/home/u/proj2/notes.tex".
    cbn. by destruct (Fs.stat fs _).
  - change (Path.join ["/home/u/proj"; "../proj2/notes.tex"])
      with "/home/u/proj2/notes.tex".
    cbn. by destruct (Fs.stat fs _).
Qed.

End Containment.

(** ** Tmux discovery *)

Lemma chars_str (l : list ascii) : JS.chars (JS.str l) = l.
Proof. apply list_ascii_of_string_of_list_ascii. Qed.

Lemma str_chars (s : string) : JS.str (JS.chars s) = s.
Proof. apply string_of_list_ascii_of_string. Qed.

Lemma split_chars_no_sep (sep : ascii) (cur l : list ascii) :
  sep ∉ l -> JS.split_chars sep cur l = [JS.str (rev cur ++ l)].
Proof.
  revert cur. induction l as [|c l IH]; intros cur Hsep; simpl.
  - by rewrite app_nil_r.
  - apply not_elem_of_cons in Hsep as [Hc Hl].
    destruct (Ascii.eqb_spec c sep) as [->|_]; [done|].
    rewrite IH by done. simpl. by rewrite <- app_assoc.
Qed.

Lemma split_chars_sep (sep : ascii) (cur l1 l2 : list ascii) :
  sep ∉ l1 ->
  JS.split_chars sep cur (l1 ++ sep :: l2) =
    JS.str (rev cur ++ l1) :: JS.split_chars sep [] l2.
Proof.
  revert cur. induction l1 as [|c l1 IH]; intros cur Hsep; simpl.
  - rewrite Ascii.eqb_refl. by rewrite app_nil_r.
  - apply not_elem_of_cons in Hsep as [Hc Hl].
    destruct (Ascii.eqb_spec c sep) as [->|_]; [done|].
    rewrite IH by done. simpl. by rewrite <- app_assoc.
Qed.

(** Facts about the ten digit characters. *)
Lemma digitChar_facts (d : nat) :
  (d < 10)%nat ->
  JS.digit_of 10 (digitChar d) = Some (Z.of_nat d) /\
  JS.isWhiteSpace (digitChar d) = false /\
  digitChar d <> ":"%char /\ digitChar d <> LF.
Proof.
  intros Hd.
  do 10 (destruct d as [|d]; [by vm_compute|]). lia.
Qed.

Lemma digitChar_one_byte (d : nat) :
  (d < 10)%nat ->
  JS.isWhiteSpace (digitChar d) = false /\
  JS.tailByte (digitChar d) = false.
Proof.
  intros Hd.
  do 10 (destruct d as [|d]; [by vm_compute|]). lia.
Qed.

Lemma numeral_no_char (ds : list nat) (c : ascii) :
  Forall (fun d => (d < 10)%nat) ds ->
  (forall d, (d < 10)%nat -> digitChar d <> c) ->
  c ∉ numeral ds.
Proof.
  intros Hds Hc. induction Hds as [|d ds Hd _ IH]; cbn [numeral map].
  - apply not_elem_of_nil.
  - apply not_elem_of_cons. split; [|done]. intros ->. by apply (Hc d).
Qed.

Lemma parseDigits_numeral (ds : list nat) (acc : Z) :
  Forall (fun d => (d < 10)%nat) ds ->
  JS.parseDigits 10 (Some acc) (numeral ds) =
    Some (fold_left (fun a d => a * 10 + Z.of_nat d) ds acc).
Proof.
  intros Hds. revert acc. induction Hds as [|d ds Hd _ IH]; intros acc.
  - reflexivity.
  - cbn [numeral map JS.parseDigits fold_left].
    destruct (digitChar_facts d Hd) as [-> _].
    cbn [from_option id]. apply IH.
Qed.

Ltac literal_digits :=
  repeat match goal with
    | H : context [digitChar ?d] |- _ =>
        let c := eval vm_compute in (digitChar d) in
        change (digitChar d) with c in *
    end.

Ltac leading_digits :=
  literal_digits;
  cbn [JS.trimStart_chars];
  repeat match goal with
    | |- context [JS.isWhiteSpace ?c] =>
        let b := eval vm_compute in (JS.isWhiteSpace c) in
        change (JS.isWhiteSpace c) with b
    | |- context [JS.leadByte ?c] =>
        let b := eval vm_compute in (JS.leadByte c) in
        change (JS.leadByte c) with b
    end;
  cbn -[JS.parseDigits numeralValue Z.mul numeral JS.number];
  match goal with
  | H : JS.parseDigits _ _ _ = _ |- _ => rewrite H
  end;
  reflexivity.

(** [parseInt] of a decimal numeral is the Number nearest to its value. *)
Lemma parseInt_numeral (ds : list nat) :
  isNumeral ds ->
  JS.parseInt_chars (numeral ds) = JS.number 1 (numeralValue ds).
Proof.
  intros [Hne Hds]. destruct ds as [|d ds]; [done|].
  apply Forall_cons in Hds as [Hd Hds].
  assert (Hrest : JS.parseDigits 10 None (digitChar d :: numeral ds) =
             Some (numeralValue (d :: ds))).
  { cbn [JS.parseDigits].
    destruct (digitChar_facts d Hd) as [-> _].
    cbn [from_option]. apply (parseDigits_numeral ds _ Hds). }
  unfold JS.parseInt_chars.
  change (numeral (d :: ds)) with (digitChar d :: numeral ds) in *.
  destruct d as [|d].
  - destruct ds as [|d2 ds].
    + reflexivity.
    + apply Forall_cons in Hds as [Hd2 _].
      change (numeral (d2 :: ds)) with (digitChar d2 :: numeral ds) in *.
      do 10 (destruct d2 as [|d2]; [by leading_digits|]). lia.
  - do 9 (destruct d as [|d]; [by leading_digits|]). lia.
Qed.

(** Below [2^53] the Number is the integer itself. *)
Lemma number_exact (m : Z) :
  0 <= m < 2 ^ 53 -> JS.number 1 m = JS.Finite m.
Proof.
  intros [H0 H53]. unfold JS.number, JS.roundToDouble.
  apply Z.ltb_lt in H53 as Hlt. rewrite Hlt.
  assert (H1024 : (2 ^ 1024 <=? m) = false).
  { apply Z.leb_gt. apply (Z.lt_trans _ (2 ^ 53)); [done|].
    by apply Z.pow_lt_mono_r. }
  rewrite H1024. change (1 <? 0) with false. rewrite andb_false_r.
  f_equal. apply Z.mul_1_l.
Qed.

Lemma renderSession_no_LF (s : TmuxSession) :
  wellFormed s -> LF ∉ renderSession s.
Proof.
  intros [[_ Hname] [[_ Hw] [_ Ha]]]. unfold renderSession.
  rewrite !not_elem_of_app, !not_elem_of_cons.
  repeat split; try done.
  - apply numeral_no_char; [done|]. intros d Hd. apply (digitChar_facts d Hd).
  - apply numeral_no_char; [done|]. intros d Hd. apply (digitChar_facts d Hd).
Qed.

Lemma parseLine_render (s : TmuxSession) :
  wellFormed s -> parseLine (JS.str (renderSession s)) = infoOf s.
Proof.
  intros [[Hname _] [Hw Ha]].
  assert (Hcw : ":"%char ∉ numeral (session_windows s)).
  { apply numeral_no_char; [apply Hw|]. intros d Hd. apply (digitChar_facts d Hd). }
  assert (Hca : ":"%char ∉ numeral (session_attached s)).
  { apply numeral_no_char; [apply Ha|]. intros d Hd. apply (digitChar_facts d Hd). }
  unfold parseLine, JS.split, renderSession. rewrite chars_str.
  cbn [app].
  rewrite (split_chars_sep ":" [] _ _ Hname).
  rewrite (split_chars_sep ":" [] _ _ Hcw).
  rewrite (split_chars_no_sep ":" [] _ Hca).
  cbn [lookup list_lookup default from_option rev app id].
  unfold JS.parseInt. rewrite chars_str, (parseInt_numeral _ Hw).
  reflexivity.
Qed.

Lemma rev_head_of_Forall {A : Type} (P : A -> Prop) (l : list A) :
  l <> [] -> Forall P l -> exists c rest, rev l = c :: rest /\ P c.
Proof.
  intros Hne Hall. apply Forall_rev in Hall.
  destruct (rev l) as [|c rest] eqn:Hrev.
  - apply (f_equal (@rev A)) in Hrev. rewrite rev_involutive in Hrev. done.
  - apply Forall_cons in Hall as [Hc _]. by exists c, rest.
Qed.

Lemma renderSession_last (s : TmuxSession) :
  wellFormed s ->
  exists c rest, rev (renderSession s) = c :: rest /\ endsLine c.
Proof.
  intros [_ [_ [Hne Ha]]]. unfold renderSession.
  destruct (rev_head_of_Forall endsLine
              (numeral (session_attached s))) as (c & rest & Hrev & Hc).
  - unfold numeral. by destruct (session_attached s).
  - unfold numeral. apply Forall_map.
    eapply Forall_impl; [exact Ha|]. intros d Hd.
    apply (digitChar_one_byte d Hd).
  - exists c. eexists. rewrite !rev_app_distr. simpl.
    rewrite Hrev. simpl. split; [reflexivity|done].
Qed.

(** The lines of a listing, separated by line feeds. *)
Lemma split_lines (s : TmuxSession) (l : list TmuxSession) :
  Forall wellFormed (s :: l) ->
  exists body,
    concat (map (fun s => renderSession s ++ [LF]) (s :: l)) = body ++ [LF] /\
    JS.split_chars LF [] body = map (fun s => JS.str (renderSession s)) (s :: l) /\
    (exists c rest, rev body = c :: rest /\ endsLine c).
Proof.
  revert s. induction l as [|s' l IH]; intros s Hall;
    apply Forall_cons in Hall as [Hs Hall].
  - exists (renderSession s). simpl. rewrite app_nil_r.
    split; [done|].
    split; [by rewrite (split_chars_no_sep LF [] _ (renderSession_no_LF s Hs))|].
    by apply renderSession_last.
  - destruct (IH s' Hall) as (body & Hbody & Hsplit & (c & rest & Hrev & Hc)).
    exists (renderSession s ++ LF :: body).
    split.
    { change (concat (map _ (s :: s' :: l)))
        with ((renderSession s ++ [LF]) ++ concat (map (fun s => renderSession s ++ [LF]) (s' :: l))).
      rewrite Hbody. by rewrite <- !app_assoc. }
    split.
    { rewrite (split_chars_sep LF [] _ _ (renderSession_no_LF s Hs)).
      by rewrite Hsplit. }
    exists c. eexists. rewrite rev_app_distr. simpl. rewrite Hrev. simpl.
    split; [reflexivity|done].
Qed.

(** ** What [trim] does to a listing *)

(** No white-space character of two or three bytes has a colon among its
    bytes. *)
Lemma isWhiteSpace2_colon (c1 : ascii) : JS.isWhiteSpace2 c1 ":" = false.
Proof. unfold JS.isWhiteSpace2. apply andb_false_r. Qed.

Lemma isWhiteSpace3_colon2 (c1 c3 : ascii) :
  JS.isWhiteSpace3 c1 ":" c3 = false.
Proof.
  unfold JS.isWhiteSpace3. cbv zeta.
  change (nat_of_ascii ":"%char) with 58%nat.
  generalize (nat_of_ascii c1) as n1, (nat_of_ascii c3) as n3. intros n1 n3.
  cbn [Nat.eqb].
  by destruct (n1 =? 225)%nat, (n1 =? 226)%nat, (n1 =? 227)%nat,
    (n1 =? 239)%nat.
Qed.

Lemma isWhiteSpace3_colon3 (c1 c2 : ascii) :
  JS.isWhiteSpace3 c1 c2 ":" = false.
Proof.
  unfold JS.isWhiteSpace3. cbv zeta.
  change (nat_of_ascii ":"%char) with 58%nat.
  generalize (nat_of_ascii c1) as n1, (nat_of_ascii c2) as n2. intros n1 n2.
  cbn [Nat.eqb Nat.leb andb orb].
  rewrite !andb_false_r.
  by destruct (n1 =? 226)%nat, (n2 =? 128)%nat.
Qed.

(** [trimStart] stops at the colon that ends the first name, at the
    latest. *)
Lemma trimStart_field (name rest : list ascii) :
  JS.trimStart_chars (name ++ ":"%char :: rest) =
    JS.trimStart_chars name ++ ":"%char :: rest.
Proof.
  remember (length name) as n eqn:Hn.
  assert (Hle : (length name <= n)%nat) by lia. clear Hn.
  revert name Hle. induction n as [|n IH]; intros name Hle.
  { destruct name; [reflexivity|simpl in Hle; lia]. }
  destruct name as [|c1 l1]; [reflexivity|].
  cbn [app JS.trimStart_chars]. simpl in Hle.
  destruct (JS.isWhiteSpace c1); [apply IH; lia|].
  destruct (JS.leadByte c1); [|reflexivity]. cbn [negb].
  destruct l1 as [|c2 l2].
  { cbn [app]. rewrite isWhiteSpace2_colon.
    destruct rest; [reflexivity|]. by rewrite isWhiteSpace3_colon2. }
  cbn [app]. simpl in Hle.
  destruct (JS.isWhiteSpace2 c1 c2); [apply IH; lia|].
  destruct l2 as [|c3 l3].
  { cbn [app]. by rewrite isWhiteSpace3_colon3. }
  cbn [app]. simpl in Hle.
  destruct (JS.isWhiteSpace3 c1 c2 c3); [apply IH; lia|reflexivity].
Qed.

(** What [trimStart] leaves is an end of what it was given. *)
Lemma trimStart_suffix (l : list ascii) :
  exists front, l = front ++ JS.trimStart_chars l.
Proof.
  remember (length l) as n eqn:Hn.
  assert (Hle : (length l <= n)%nat) by lia. clear Hn.
  revert l Hle. induction n as [|n IH]; intros l Hle.
  { destruct l; [by exists []|simpl in Hle; lia]. }
  destruct l as [|c1 l1]; [by exists []|].
  cbn [JS.trimStart_chars]. simpl in Hle.
  destruct (JS.isWhiteSpace c1).
  { destruct (IH l1) as [front Hfront]; [lia|].
    exists (c1 :: front). cbn [app]. by rewrite <- Hfront. }
  destruct (negb (JS.leadByte c1)); [by exists []|].
  destruct l1 as [|c2 l2]; [by exists []|]. simpl in Hle.
  destruct (JS.isWhiteSpace2 c1 c2).
  { destruct (IH l2) as [front Hfront]; [lia|].
    exists (c1 :: c2 :: front). cbn [app]. by rewrite <- Hfront. }
  destruct l2 as [|c3 l3]; [by exists []|]. simpl in Hle.
  destruct (JS.isWhiteSpace3 c1 c2 c3); [|by exists []].
  destruct (IH l3) as [front Hfront]; [lia|].
  exists (c1 :: c2 :: c3 :: front). cbn [app]. by rewrite <- Hfront.
Qed.

Lemma trimStart_keeps_out (c : ascii) (l : list ascii) :
  c ∉ l -> c ∉ JS.trimStart_chars l.
Proof.
  intros Hout Hin. apply Hout.
  destruct (trimStart_suffix l) as [front Hfront].
  rewrite Hfront. apply elem_of_app. by right.
Qed.

Lemma trimmedName_wellFormed (s : TmuxSession) :
  wellFormed s -> wellFormed (trimmedName s).
Proof.
  intros [[Hcolon Hlf] Hcounts]. split; [|exact Hcounts].
  cbn [trimmedName session_name].
  split; by apply trimStart_keeps_out.
Qed.

Lemma firstNameTrimmed_wellFormed (l : list TmuxSession) :
  Forall wellFormed l -> Forall wellFormed (firstNameTrimmed l).
Proof.
  destruct l as [|s l]; [done|]. intros Hall.
  apply Forall_cons in Hall as [Hs Hall]. cbn [firstNameTrimmed].
  apply Forall_cons. split; [by apply trimmedName_wellFormed|done].
Qed.

(** [trimStart] on a listing trims the first name. *)
Lemma trimStart_listing (l : list TmuxSession) :
  JS.trimStart_chars (concat (map (fun s => renderSession s ++ [LF]) l)) =
    concat (map (fun s => renderSession s ++ [LF]) (firstNameTrimmed l)).
Proof.
  destruct l as [|s l]; [reflexivity|].
  cbn [firstNameTrimmed map concat]. unfold renderSession at 1 3.
  cbn [trimmedName session_name session_windows session_attached].
  rewrite <- !app_assoc. cbn [app].
  by rewrite trimStart_field.
Qed.

(** [trimEnd] takes the last line feed and stops at the digit before
    it. *)
Lemma trimEnd_line_feed (body : list ascii) :
  (exists c rest, rev body = c :: rest /\ endsLine c) ->
  rev (JS.trimEnd_rev (rev (body ++ [LF]))) = body.
Proof.
  intros (c & rest & Hrev & Hws & Htail).
  rewrite rev_app_distr, Hrev. cbn [rev app JS.trimEnd_rev].
  change (JS.isWhiteSpace LF) with true. cbv iota.
  rewrite Hws, Htail. cbn [negb].
  by rewrite <- Hrev, rev_involutive.
Qed.

Lemma filter_map_all {A B : Type} (P : B -> bool) (f : A -> B) (l : list A) :
  (forall x, x ∈ l -> P (f x) = true) ->
  filter (fun y => P y = true) (map f l) = map f l.
Proof.
  induction l as [|x l IH]; intros Hall; [reflexivity|].
  cbn [map]. rewrite filter_cons_True by (apply Hall; left).
  rewrite IH; [reflexivity|]. intros y Hy. apply Hall. by right.
Qed.

Lemma renderSession_truthy (s : TmuxSession) :
  JS.truthy (JS.str (renderSession s)) = true.
Proof. unfold renderSession. by destruct (session_name s). Qed.

(** The reply to a listing: the record of every session, the first one
    under its trimmed name. *)
Lemma tmux_listing_parsed (l : list TmuxSession) :
  Forall wellFormed l ->
  list_tmux_sessions (Ok (renderSessions l)) = map infoOf (firstNameTrimmed l).
Proof.
  intros Hall. apply firstNameTrimmed_wellFormed in Hall as Htrimmed.
  unfold list_tmux_sessions, renderSessions, JS.trim.
  rewrite chars_str, trimStart_listing.
  destruct l as [|s l]; [reflexivity|].
  cbn [firstNameTrimmed] in *.
  destruct (split_lines _ _ Htrimmed) as (body & Hbody & Hsplit & Hlast).
  rewrite Hbody, (trimEnd_line_feed body Hlast).
  unfold JS.split. rewrite chars_str.
  change "010"%char with LF. rewrite Hsplit.
  rewrite (filter_map_all JS.truthy)
    by (intros x _; apply renderSession_truthy).
  rewrite map_map. apply map_ext_in. intros x Hx.
  apply parseLine_render.
  rewrite Forall_forall in Htrimmed. apply Htrimmed. by apply list_elem_of_In.
Qed.

Lemma str_inj (l1 l2 : list ascii) : JS.str l1 = JS.str l2 -> l1 = l2.
Proof.
  intros Heq. apply (f_equal JS.chars) in Heq. by rewrite !chars_str in Heq.
Qed.

(** C5, which fails on a listing whose first name begins with white
    space.  [list-tmux-sessions] turns the listing printed by tmux, one
    [name:windowCount:attachedFlag] line per session, into one record per
    session, in order, with the window count as a Number and [attached]
    true exactly when the flag is ["1"]; but [stdout.trim()] is applied
    to the whole output before it is cut into lines, so the name of the
    first record is the first name without the white space in front of
    it.  The records are those of the sessions exactly when the first
    name begins with no white space: for the listing of a session
    [" work"] the reply names a session ["work"].  The fixture output
    [proj:3:1], [build:1:0] gives the two records of the specification,
    and when the invocation fails the result is the empty sequence. *)
Theorem first_session_name_trimmed (l : list TmuxSession) :
  Forall wellFormed l ->
  list_tmux_sessions (Ok (renderSessions l)) = map infoOf (firstNameTrimmed l) /\
  (list_tmux_sessions (Ok (renderSessions l)) = map infoOf l <->
   firstNameTrimmed l = l) /\
  list_tmux_sessions (Ok " work:1:0
") = [ {| Tmux.name := "work"; Tmux.windows := JS.Finite 1;
          Tmux.attached := false |} ] /\
  list_tmux_sessions (Ok "proj:3:1
build:1:0
") = [ {| Tmux.name := "proj"; Tmux.windows := JS.Finite 3;
          Tmux.attached := true |};
       {| Tmux.name := "build"; Tmux.windows := JS.Finite 1;
          Tmux.attached := false |} ] /\
  (forall message, list_tmux_sessions (Throw message) = []).
Proof.
  intros Hall.
  split; [by apply tmux_listing_parsed|].
  split; [|split; [reflexivity|split; reflexivity]].
  rewrite (tmux_listing_parsed l Hall).
  split; [|by intros ->].
  destruct l as [|s l]; [done|]. cbn [firstNameTrimmed map].
  intros [= Hname]. f_equal.
  apply str_inj in Hname. cbn [trimmedName session_name] in Hname.
  destruct s as [n w a]. cbn [session_name] in Hname.
  unfold trimmedName. cbn [session_name session_windows session_attached].
  by rewrite Hname.
Qed.

Lemma first_session_name_trimmed_witness :
  list_tmux_sessions (Ok (renderSessions blankFirstSessions)) =
    [ {| Tmux.name := "work"; Tmux.windows := JS.Finite 1;
         Tmux.attached := false |};
      {| Tmux.name := " play"; Tmux.windows := JS.Finite 2;
         Tmux.attached := true |} ] /\
  list_tmux_sessions (Ok (renderSessions blankFirstSessions)) <>
    map infoOf blankFirstSessions.
Proof.
  destruct (first_session_name_trimmed blankFirstSessions) as (Hreply & Hiff & _).
  - compute_done.
  - split.
    + rewrite Hreply. vm_compute. reflexivity.
    + intros Heq. apply Hiff in Heq. vm_compute in Heq. discriminate Heq.
Defined.

(** ** Directory listings *)

Section SortFacts.
Context {A : Type} (cmp : A -> A -> Z).

Lemma insert_sorted_perm (x : A) (l : list A) :
  Permutation (insert_sorted cmp x l) (x :: l).
Proof.
  induction l as [|y l IH]; simpl; [reflexivity|].
  destruct (cmp x y <=? 0); [reflexivity|].
  rewrite IH. apply perm_swap.
Qed.

Lemma sort_perm (l : list A) : Permutation (sort cmp l) l.
Proof.
  induction l as [|x l IH]; simpl; [reflexivity|].
  rewrite insert_sorted_perm. by constructor.
Qed.

Hypothesis cmp_consistent : consistent cmp.

Lemma consistent_total (a b : A) : 0 < cmp a b -> cmp b a <= 0.
Proof.
  intros Hab. destruct cmp_consistent as [Hflip _].
  specialize (Hflip a b). lia.
Qed.

Lemma insert_sorted_sorted (x : A) (l : list A) :
  StronglySorted (fun a b => cmp a b <= 0) l ->
  StronglySorted (fun a b => cmp a b <= 0) (insert_sorted cmp x l).
Proof.
  destruct cmp_consistent as [_ Htrans].
  induction 1 as [|y l Hl IH Hy]; simpl.
  - repeat constructor.
  - destruct (Z.leb_spec (cmp x y) 0) as [Hxy|Hxy].
    + constructor; [by constructor|].
      constructor; [done|].
      eapply Forall_impl; [exact Hy|]. intros z Hz. by apply (Htrans x y z).
    + constructor; [done|].
      rewrite (insert_sorted_perm x l).
      constructor; [by apply consistent_total|done].
Qed.

Lemma sort_sorted (l : list A) :
  StronglySorted (fun a b => cmp a b <= 0) (sort cmp l).
Proof.
  induction l as [|x l IH]; simpl; [constructor|].
  by apply insert_sorted_sorted.
Qed.

End SortFacts.

Section Listing.
Variable localeCompare : string -> string -> Z.
Hypothesis localeCompare_consistent : consistent localeCompare.

Lemma compareEntries_consistent : consistent (compareEntries localeCompare).
Proof.
  destruct localeCompare_consistent as [Hflip Htrans].
  split.
  - intros a b. unfold compareEntries.
    destruct (isDirectory a), (isDirectory b); simpl; try apply Hflip; reflexivity.
  - intros a b c. unfold compareEntries.
    destruct (isDirectory a), (isDirectory b), (isDirectory c); simpl;
      try lia; apply Htrans.
Qed.

(** In an array sorted by [compareEntries] the directories come first,
    and each of the two groups is in name order. *)
Lemma sorted_directories_first (l : list FileEntry) :
  StronglySorted (fun a b => compareEntries localeCompare a b <= 0) l ->
  exists dirs others,
    l = dirs ++ others /\
    Forall (fun f => isDirectory f = true) dirs /\
    Forall (fun f => isDirectory f = false) others /\
    StronglySorted (byName localeCompare) dirs /\
    StronglySorted (byName localeCompare) others.
Proof.
  induction 1 as [|x l Hl IH Hx].
  - exists [], []. repeat split; constructor.
  - destruct IH as (dirs & others & -> & Hdirs & Hothers & Sdirs & Sothers).
    apply Forall_app in Hx as [Hxd Hxo].
    destruct (isDirectory x) eqn:Hdx.
    + exists (x :: dirs), others. repeat split; try done.
      * by constructor.
      * constructor; [done|].
        rewrite Forall_forall in *. intros d Hd.
        specialize (Hxd d Hd). specialize (Hdirs d Hd).
        unfold compareEntries in Hxd. rewrite Hdx, Hdirs in Hxd. exact Hxd.
    + destruct dirs as [|d dirs].
      * exists [], (x :: others). repeat split; try done.
        -- by constructor.
        -- constructor; [done|].
           rewrite Forall_forall in *. intros o Ho.
           specialize (Hxo o Ho). specialize (Hothers o Ho).
           unfold compareEntries in Hxo. rewrite Hdx, Hothers in Hxo. exact Hxo.
      * apply Forall_cons in Hxd as [Hxd _]. apply Forall_cons in Hdirs as [Hd _].
        unfold compareEntries in Hxd. rewrite Hdx, Hd in Hxd. simpl in Hxd. lia.
Qed.

Lemma Forall_listing (P : FileEntry -> Prop) (relativePath : string)
  (entries : list Fs.Dirent) :
  (forall e, e ∈ entries -> notHidden e = true -> allowed e = true ->
             P (toFileEntry relativePath e)) ->
  Forall P (listing localeCompare relativePath entries).
Proof.
  intros HP. unfold listing.
  rewrite sort_perm. apply Forall_map, Forall_forall.
  intros e He.
  apply list_elem_of_filter in He as [Hallowed He].
  apply list_elem_of_filter in He as [Hshown He].
  by apply HP.
Qed.

Lemma listing_perm (relativePath : string) (entries : list Fs.Dirent) :
  Permutation (listing localeCompare relativePath entries)
    (map (toFileEntry relativePath) (filter (fun e => shown e = true) entries)).
Proof.
  unfold listing. rewrite sort_perm. apply Permutation_map.
  induction entries as [|e entries IH]; [reflexivity|].
  unfold shown in *. rewrite !filter_cons.
  destruct (notHidden e); simpl.
  - rewrite filter_cons.
    destruct (decide (allowed e = true)) as [Ha|Ha];
      destruct (decide (true = true)); try done;
      destruct (decide (true && allowed e = true)); simpl in *; try done;
      by constructor.
  - destruct (decide (false = true)); [done|].
    destruct (decide (false && allowed e = true)); [done|]. exact IH.
Qed.

End Listing.

Lemma codeUnitCompare_consistent : consistent codeUnitCompare.
Proof.
  split.
  - intros a b. unfold codeUnitCompare.
    rewrite (String.compare_antisym a b). by destruct (String.compare b a).
  - intros a b c. unfold codeUnitCompare. intros Hab Hbc.
    assert (Hle : forall x y, match String.compare x y with
                              | Lt => -1 | Eq => 0 | Gt => 1 end <= 0 <->
                              String.le x y).
    { intros x y. unfold String.le, String.leb.
      destruct (String.compare x y); simpl; split; intros; try lia; done. }
    apply Hle. apply Hle in Hab, Hbc. by etrans.
Qed.

(** C3: the [files] of every reply of [list-files] hold no entry whose
    name starts with a dot and no non-directory whose extension is outside
    [ALLOWED_EXTENSIONS]; all directories come before all other entries and
    each group is in the order of the lower-cased names; a successful
    reply holds every other entry of the directory.  On a root that holds
    [b.txt], [A.tex], [.hidden] and the directory [sub], the listing of
    [""] is [sub], [A.tex], [b.txt]. *)
Theorem listing_filtered_and_ordered (localeCompare : string -> string -> Z)
  (fs : Fs.FileSystem) (root : option string) (relativePath : string) :
  consistent localeCompare ->
  let files := files_of (list_files localeCompare fs root relativePath).1 in
  Forall (fun f => JS.startsWith (name f) "." = false) files /\
  Forall (fun f => isDirectory f = false ->
            JS.includes ALLOWED_EXTENSIONS
              (JS.toLowerCase (Path.extname (name f))) = true) files /\
  (exists dirs others,
      files = dirs ++ others /\
      Forall (fun f => isDirectory f = true) dirs /\
      Forall (fun f => isDirectory f = false) others /\
      StronglySorted (byName localeCompare) dirs /\
      StronglySorted (byName localeCompare) others) /\
  (forall p r fs', (list_files localeCompare fs root relativePath).1 = ListOk p r fs' ->
      exists dir entries,
        (list_files localeCompare fs root relativePath).2 = [Fs.ReaddirSync dir] /\
        Fs.readdir fs dir = Ok entries /\
        Permutation files
          (map (toFileEntry relativePath) (filter (fun e => shown e = true) entries))) /\
  (localeCompare "a.tex" "b.txt" < 0 ->
   map name (files_of (list_files localeCompare sampleFs (Some "/w") "").1) =
     ["sub"; "A.tex"; "b.txt"]).
Proof.
  intros Hcons files.
  assert (Hfiles : files = [] \/
            exists dir entries,
              list_files localeCompare fs root relativePath =
                (ListOk relativePath (default "" root)
                   (listing localeCompare relativePath entries),
                 [Fs.ReaddirSync dir]) /\
              Fs.readdir fs dir = Ok entries).
  { subst files. unfold list_files.
    destruct root as [cd|]; [|by left].
    destruct (JS.truthy cd); [|by left]. simpl.
    destruct (JS.startsWith _ cd); [|by left]. simpl.
    destruct (Fs.readdir fs _) as [entries|message] eqn:Hread; [|by left].
    right. by eexists _, _. }
  split; [|split; [|split; [|split]]].
  - destruct Hfiles as [->|(dir & entries & Heq & _)]; [constructor|].
    subst files. rewrite Heq. simpl.
    apply Forall_listing. intros e _ Hshown _. simpl.
    unfold notHidden in Hshown. by destruct (JS.startsWith _ _).
  - destruct Hfiles as [->|(dir & entries & Heq & _)]; [constructor|].
    subst files. rewrite Heq. simpl.
    apply Forall_listing. intros e _ _ Hallowed. simpl. intros Hfile.
    unfold allowed in Hallowed. by rewrite Hfile in Hallowed.
  - destruct Hfiles as [->|(dir & entries & Heq & _)].
    + exists [], []. repeat split; constructor.
    + subst files. rewrite Heq. simpl.
      apply (sorted_directories_first localeCompare).
      apply sort_sorted. by apply compareEntries_consistent.
  - intros p r fs' Hok.
    destruct Hfiles as [Hnil|(dir & entries & Heq & Hread)].
    + subst files. unfold list_files in Hok |- *.
      destruct root as [cd|]; [|done].
      destruct (JS.truthy cd); [|done]. simpl in *.
      destruct (JS.startsWith _ cd); [|done]. simpl in *.
      destruct (Fs.readdir fs _) as [entries|message] eqn:Hread; [|done].
      eexists _, entries. split; [reflexivity|]. split; [exact Hread|].
      simpl. apply listing_perm.
    + exists dir, entries. subst files. rewrite Heq. simpl.
      split; [reflexivity|]. split; [exact Hread|]. apply listing_perm.
  - intros Hab.
    destruct Hcons as [Hflip _]. specialize (Hflip "a.tex" "b.txt").
    assert (Hba : (localeCompare "b.txt" "a.tex" <=? 0) = false)
      by (apply Z.leb_gt; lia).
    assert (Hlisting : listing localeCompare "" sampleEntries =
              sort (compareEntries localeCompare)
                (map (toFileEntry "") [ {| Fs.name := "b.txt"; Fs.isDirectory := false |};
                                        {| Fs.name := "A.tex"; Fs.isDirectory := false |};
                                        {| Fs.name := "sub"; Fs.isDirectory := true |} ]))
      by reflexivity.
    change (files_of (list_files localeCompare sampleFs (Some "/w") "").1)
      with (listing localeCompare "" sampleEntries).
    rewrite Hlisting.
    cbn [map sort foldr insert_sorted].
    change (compareEntries localeCompare (toFileEntry "" {| Fs.name := "A.tex"; Fs.isDirectory := false |})
              (toFileEntry "" {| Fs.name := "sub"; Fs.isDirectory := true |})) with 1.
    change (compareEntries localeCompare (toFileEntry "" {| Fs.name := "b.txt"; Fs.isDirectory := false |})
              (toFileEntry "" {| Fs.name := "sub"; Fs.isDirectory := true |})) with 1.
    cbn [Z.leb Z.compare insert_sorted].
    change (compareEntries localeCompare (toFileEntry "" {| Fs.name := "b.txt"; Fs.isDirectory := false |})
              (toFileEntry "" {| Fs.name := "A.tex"; Fs.isDirectory := false |}))
      with (localeCompare "b.txt" "a.tex").
    rewrite Hba. reflexivity.
Qed.

Lemma listing_filtered_and_ordered_witness :
  consistent codeUnitCompare /\
  map name (files_of (list_files codeUnitCompare sampleFs (Some "/w") "").1) =
    ["sub"; "A.tex"; "b.txt"].
Proof.
  split; [exact codeUnitCompare_consistent|].
  apply (listing_filtered_and_ordered codeUnitCompare sampleFs (Some "/w") "").
  - exact codeUnitCompare_consistent.
  - reflexivity.
Defined.

(** ** The life of a session *)

Lemma closedCount_app (termId : string) (l l' : list Event) :
  closedCount termId (l ++ l') = (closedCount termId l + closedCount termId l')%nat.
Proof. unfold closedCount. by rewrite filter_app, length_app. Qed.

Lemma closedCount_on_exit (st : State) (termId id : string) :
  closedCount id (on_exit st termId).2 =
    if decide (id = termId) then (if mainWindow st then 1%nat else 0%nat) else 0%nat.
Proof.
  unfold on_exit, closedCount. simpl.
  destruct (mainWindow st); [|by destruct (decide _)].
  rewrite filter_cons. destruct (decide (id = termId)) as [->|Hne].
  - by rewrite decide_True.
  - rewrite decide_False; [done|]. intros [= ->]. done.
Qed.

Lemma closedCount_on_data (st : State) (termId data id : string) :
  closedCount id (on_data st termId data) = 0%nat.
Proof. unfold on_data, closedCount. by destruct (mainWindow st). Qed.

(** Delivering the exit of the pty object [term] adds it to the exited
    sessions of its ID and to no other. *)
Lemma exited_insert (ps : list PtyObject) (term : Handle) (termId id : string) :
  ps !! term = Some {| closure_termId := termId; exited := false |} ->
  length (filter (fun p => p = {| closure_termId := id; exited := true |})
            (<[term := {| closure_termId := termId; exited := true |}]> ps)) =
  ((if decide (id = termId) then 1 else 0) +
   length (filter (fun p => p = {| closure_termId := id; exited := true |}) ps))%nat.
Proof.
  intros Hterm.
  assert (Hlt : (term < length ps)%nat) by (by eapply lookup_lt_Some).
  rewrite (insert_take_drop ps term _ Hlt).
  rewrite <- (take_drop_middle ps term _ Hterm) at 3.
  rewrite !filter_app, !filter_cons, !length_app.
  destruct (decide ({| closure_termId := termId; exited := false |} =
                    {| closure_termId := id; exited := true |})) as [[=]|_].
  destruct (decide (id = termId)) as [->|Hne].
  - rewrite decide_True by done. simpl. lia.
  - rewrite decide_False by (intros [= ->]; done). simpl. lia.
Qed.

Lemma exited_snoc (ps : list PtyObject) (termId id : string) :
  filter (fun p => p = {| closure_termId := id; exited := true |})
    (ps ++ [{| closure_termId := termId; exited := false |}]) =
  filter (fun p => p = {| closure_termId := id; exited := true |}) ps.
Proof.
  rewrite filter_app, filter_cons.
  destruct (decide ({| closure_termId := termId; exited := false |} =
                    {| closure_termId := id; exited := true |})) as [[=]|_].
  by rewrite filter_nil, app_nil_r.
Qed.

Lemma registryLive_delete (st : State) (ps : list PtyObject) (ev : list Event)
  (pc pc' : list PtyCall) (termId : string) :
  registryLive {| main := st; procs := ps; sent := ev; ptyCalls := pc |} ->
  registryLive {| main := set_terminals st (delete termId (terminals st));
                  procs := ps; sent := ev; ptyCalls := pc' |}.
Proof.
  intros Hlive id term. simpl. intros Hlookup.
  apply lookup_delete_Some in Hlookup as [_ Hlookup]. by apply Hlive.
Qed.

Lemma step_registryLive (host : Host) (s s' : System) (i : Input) :
  registryLive s -> step host s i = Some s' -> registryLive s'.
Proof.
  intros Hlive Hstep. destruct s as [st ps ev pc].
  destruct i; simpl in Hstep.
  - (* create *)
    unfold create_terminal in Hstep. destruct (pty host).
    + destruct failure; simpl in Hstep; injection Hstep as <-; [exact Hlive|].
      intros id term. simpl. intros Hlookup.
      apply lookup_insert_Some in Hlookup as [[<- <-]|[Hne Hlookup]].
      * by rewrite lookup_app_r, Nat.sub_diag.
      * specialize (Hlive id term Hlookup). simpl in Hlive.
        rewrite lookup_app_l; [done|]. by eapply lookup_lt_Some.
    + simpl in Hstep. injection Hstep as <-. exact Hlive.
  - (* input *)
    unfold terminal_input in Hstep. simpl in Hstep.
    destruct (terminals st !! termId); [destruct thrown|];
      injection Hstep as <-; try exact Hlive.
    by eapply registryLive_delete.
  - (* resize *)
    unfold terminal_resize in Hstep. simpl in Hstep.
    destruct (terminals st !! termId); [destruct thrown|];
      injection Hstep as <-; try exact Hlive.
    by eapply registryLive_delete.
  - (* close *)
    unfold close_terminal in Hstep. simpl in Hstep.
    destruct (terminals st !! termId); [destruct thrown|];
      injection Hstep as <-; try exact Hlive.
    by eapply registryLive_delete.
  - (* data *)
    destruct (ps !! term) as [[id []]|]; try done.
    injection Hstep as <-. exact Hlive.
  - (* exit *)
    destruct (ps !! term) as [[id []]|] eqn:Hterm; try done.
    injection Hstep as <-.
    intros id' term'. simpl. intros Hlookup.
    apply lookup_delete_Some in Hlookup as [Hne Hlookup].
    specialize (Hlive id' term' Hlookup). simpl in Hlive.
    rewrite list_lookup_insert_ne; [done|].
    intros <-. rewrite Hterm in Hlive. by injection Hlive as ->.
  - (* window closed *)
    injection Hstep as <-. intros id term. simpl. by rewrite lookup_empty.
  - (* activate *)
    injection Hstep as <-. exact Hlive.
  - (* directory chosen *)
    injection Hstep as <-. exact Hlive.
Qed.

Lemma step_closedBounded (host : Host) (s s' : System) (i : Input) :
  closedBounded s -> step host s i = Some s' -> closedBounded s'.
Proof.
  intros Hbound Hstep id. specialize (Hbound id).
  destruct s as [st ps ev pc]. unfold exitedSessionsOf in *. simpl in Hbound.
  destruct i; simpl in Hstep.
  - unfold create_terminal in Hstep. destruct (pty host).
    + destruct failure; simpl in Hstep; injection Hstep as <-; simpl; [done|].
      by rewrite exited_snoc.
    + simpl in Hstep. by injection Hstep as <-.
  - unfold terminal_input in Hstep.
    destruct (terminals st !! termId); [destruct thrown|];
      by injection Hstep as <-.
  - unfold terminal_resize in Hstep.
    destruct (terminals st !! termId); [destruct thrown|];
      by injection Hstep as <-.
  - unfold close_terminal in Hstep.
    destruct (terminals st !! termId); [destruct thrown|];
      by injection Hstep as <-.
  - destruct (ps !! term) as [[termId []]|]; try done.
    injection Hstep as <-. simpl.
    rewrite closedCount_app, closedCount_on_data. lia.
  - destruct (ps !! term) as [[termId []]|] eqn:Hterm; try done.
    injection Hstep as <-. simpl.
    rewrite closedCount_app, (exited_insert ps term termId id Hterm).
    pose proof (closedCount_on_exit st termId id) as Hexit. simpl in Hexit.
    rewrite Hexit.
    destruct (decide (id = termId)); [destruct (mainWindow st)|]; lia.
  - by injection Hstep as <-.
  - by injection Hstep as <-.
  - by injection Hstep as <-.
Qed.

Lemma run_invariant (host : Host) (inputs : list Input) (s s' : System) :
  registryLive s -> closedBounded s -> run host s inputs = Some s' ->
  registryLive s' /\ closedBounded s'.
Proof.
  revert s. induction inputs as [|i inputs IH]; intros s Hlive Hbound Hrun.
  - injection Hrun as <-. done.
  - cbn [run] in Hrun. destruct (step host s i) as [s1|] eqn:Hstep; [|done].
    apply (IH s1); [by eapply step_registryLive|by eapply step_closedBounded|done].
Qed.

Lemma initial_invariant : registryLive initial /\ closedBounded initial.
Proof.
  split.
  - intros id term. simpl. by rewrite lookup_empty.
  - intros id. unfold closedCount, exitedSessionsOf. simpl. lia.
Qed.

Lemma exited_le_sessions (termId : string) (s : System) :
  (length (exitedSessionsOf termId s) <= length (sessionsOf termId s))%nat.
Proof.
  unfold exitedSessionsOf, sessionsOf.
  induction (procs s) as [|p ps IH]; [done|].
  rewrite !filter_cons.
  destruct (decide (p = _)) as [->|_]; simpl.
  - rewrite decide_True by done. simpl. lia.
  - destruct (decide _); simpl; lia.
Qed.

(** The calls a step makes are made on pty objects of the registry. *)
Lemma step_calls (host : Host) (s s' : System) (i : Input) (c : PtyCall)
  (term : Handle) :
  step host s i = Some s' ->
  c ∈ drop (length (ptyCalls s)) (ptyCalls s') ->
  targetOf c = Some term ->
  exists termId, terminals (main s) !! termId = Some term.
Proof.
  intros Hstep Hc Htarget. destruct s as [st ps ev pc].
  assert (Hdrop : forall calls : list PtyCall,
             drop (length pc) (pc ++ calls) = calls).
  { intros calls. by rewrite drop_app_length. }
  destruct i; simpl in Hstep.
  - unfold create_terminal in Hstep. destruct (pty host).
    + destruct failure; simpl in Hstep; injection Hstep as <-;
        simpl in Hc; rewrite Hdrop in Hc;
        apply list_elem_of_singleton in Hc as ->; done.
    + simpl in Hstep. injection Hstep as <-. simpl in Hc.
      rewrite Hdrop in Hc. by apply elem_of_nil in Hc.
  - unfold terminal_input in Hstep.
    destruct (terminals st !! termId) as [t|] eqn:Hlookup; [destruct thrown|];
      injection Hstep as <-; simpl in Hc; rewrite Hdrop in Hc;
      try (by apply elem_of_nil in Hc);
      apply list_elem_of_singleton in Hc as ->; injection Htarget as <-;
      by exists termId.
  - unfold terminal_resize in Hstep.
    destruct (terminals st !! termId) as [t|] eqn:Hlookup; [destruct thrown|];
      injection Hstep as <-; simpl in Hc; rewrite Hdrop in Hc;
      try (by apply elem_of_nil in Hc);
      apply list_elem_of_singleton in Hc as ->; injection Htarget as <-;
      by exists termId.
  - unfold close_terminal in Hstep.
    destruct (terminals st !! termId) as [t|] eqn:Hlookup; [destruct thrown|];
      injection Hstep as <-; simpl in Hc; rewrite Hdrop in Hc;
      try (by apply elem_of_nil in Hc);
      apply list_elem_of_singleton in Hc as ->; injection Htarget as <-;
      by exists termId.
  - destruct (ps !! term0) as [[termId []]|]; try done.
    injection Hstep as <-. simpl in Hc.
    rewrite drop_all in Hc. by apply elem_of_nil in Hc.
  - destruct (ps !! term0) as [[termId []]|]; try done.
    injection Hstep as <-. simpl in Hc.
    rewrite drop_all in Hc. by apply elem_of_nil in Hc.
  - injection Hstep as <-. simpl in Hc. rewrite Hdrop in Hc.
    apply list_elem_of_fmap in Hc as ([termId t] & -> & Hin).
    injection Htarget as <-. exists termId.
    by apply elem_of_map_to_list in Hin.
  - injection Hstep as <-. simpl in Hc.
    rewrite drop_all in Hc. by apply elem_of_nil in Hc.
  - injection Hstep as <-. simpl in Hc.
    rewrite drop_all in Hc. by apply elem_of_nil in Hc.
Qed.

Lemma run_app (host : Host) (s s1 s2 : System) (inputs later : list Input) :
  run host s inputs = Some s1 -> run host s1 later = Some s2 ->
  run host s (inputs ++ later) = Some s2.
Proof.
  revert s. induction inputs as [|i inputs IH]; intros s Hrun Hlater.
  - injection Hrun as ->. exact Hlater.
  - cbn [run app] in *. destruct (step host s i) as [s'|]; [|done].
    by apply IH.
Qed.

(** Messages are only ever added. *)
Lemma step_closedCount_mono (host : Host) (s s' : System) (i : Input)
  (termId : string) :
  step host s i = Some s' ->
  (closedCount termId (sent s) <= closedCount termId (sent s'))%nat.
Proof.
  intros Hstep. destruct s as [st ps ev pc].
  destruct i; simpl in Hstep.
  - unfold create_terminal in Hstep. destruct (pty host).
    + by destruct failure; simpl in Hstep; injection Hstep as <-.
    + simpl in Hstep. by injection Hstep as <-.
  - unfold terminal_input in Hstep.
    destruct (terminals st !! termId0); [destruct thrown|];
      by injection Hstep as <-.
  - unfold terminal_resize in Hstep.
    destruct (terminals st !! termId0); [destruct thrown|];
      by injection Hstep as <-.
  - unfold close_terminal in Hstep.
    destruct (terminals st !! termId0); [destruct thrown|];
      by injection Hstep as <-.
  - destruct (ps !! term) as [[id []]|]; try done.
    injection Hstep as <-. simpl. rewrite closedCount_app. lia.
  - destruct (ps !! term) as [[id []]|]; try done.
    injection Hstep as <-. simpl. rewrite closedCount_app. lia.
  - by injection Hstep as <-.
  - by injection Hstep as <-.
  - by injection Hstep as <-.
Qed.

Lemma run_closedCount_mono (host : Host) (inputs : list Input) (s s' : System)
  (termId : string) :
  run host s inputs = Some s' ->
  (closedCount termId (sent s) <= closedCount termId (sent s'))%nat.
Proof.
  revert s. induction inputs as [|i inputs IH]; intros s Hrun.
  - by injection Hrun as <-.
  - cbn [run] in Hrun. destruct (step host s i) as [s1|] eqn:Hstep; [|done].
    pose proof (step_closedCount_mono host s s1 i termId Hstep).
    specialize (IH s1 Hrun). lia.
Qed.

(** C7, as the code has it.  In every state the main process can reach:
    the [terminal-closed] events for an ID are at most as many as the
    sessions of that ID whose exit has been delivered, and exactly one
    for an ID used by a single session whose exit was delivered while the
    window was there; the registry holds
    only pty objects whose exit has not been delivered, each under the ID
    it was created for; the exit callback of a session removes the entry of
    its ID and then sends one [terminal-closed] for that ID if the window
    is there, none if it is gone; an exit is delivered once; no other
    input sends a [terminal-closed]; a close request removes the entry
    right after the kill; and no call is ever made on a pty object whose
    exit has been delivered. *)
Theorem session_closed_at_most_once (host : Host) (inputs : list Input)
  (s : System) :
  run host initial inputs = Some s ->
  (forall termId,
      (closedCount termId (sent s) <= length (exitedSessionsOf termId s))%nat /\
      (length (exitedSessionsOf termId s) <= length (sessionsOf termId s))%nat) /\
  (forall term termId later s2,
      procs s !! term = Some {| closure_termId := termId; exited := false |} ->
      mainWindow (main s) = true ->
      run host s (Exit term :: later) = Some s2 ->
      sessionsOf termId s2 = [{| closure_termId := termId; exited := true |}] ->
      closedCount termId (sent s2) = 1%nat) /\
  registryLive s /\
  (forall term termId,
      procs s !! term = Some {| closure_termId := termId; exited := false |} ->
      exists s',
        step host s (Exit term) = Some s' /\
        terminals (main s') !! termId = None /\
        sent s' = sent s ++
                  (if mainWindow (main s) then [TerminalClosed termId] else []) /\
        procs s' !! term = Some {| closure_termId := termId; exited := true |}) /\
  (forall term termId,
      procs s !! term = Some {| closure_termId := termId; exited := true |} ->
      step host s (Exit term) = None) /\
  (forall i s',
      step host s i = Some s' -> (forall term, i <> Exit term) ->
      forall termId, closedCount termId (sent s') = closedCount termId (sent s)) /\
  (forall termId term,
      terminals (main s) !! termId = Some term ->
      exists s',
        step host s (CloseTerminal termId None) = Some s' /\
        terminals (main s') !! termId = None /\
        ptyCalls s' = ptyCalls s ++ [Kill term] /\
        sent s' = sent s) /\
  (forall i s' term p c,
      step host s i = Some s' ->
      procs s !! term = Some p -> exited p = true ->
      c ∈ drop (length (ptyCalls s)) (ptyCalls s') ->
      targetOf c <> Some term).
Proof.
  intros Hrun.
  destruct (run_invariant host inputs initial s) as [Hlive Hbound];
    [apply initial_invariant..|exact Hrun|].
  split; [|split; [|split; [|split; [|split; [|split; [|split]]]]]].
  - intros termId. split; [apply Hbound|apply exited_le_sessions].
  - intros term termId later s2 Hterm Hwindow Hlater Hone.
    destruct (run_invariant host (inputs ++ Exit term :: later) initial s2)
      as [_ Hbound2]; [apply initial_invariant..|by eapply run_app|].
    specialize (Hbound2 termId).
    pose proof (exited_le_sessions termId s2) as Hle. rewrite Hone in Hle.
    cbn [run] in Hlater.
    destruct (step host s (Exit term)) as [s1|] eqn:Hstep; [|done].
    pose proof (run_closedCount_mono host later s1 s2 termId Hlater) as Hmono.
    simpl in Hstep. rewrite Hterm in Hstep. injection Hstep as <-.
    simpl in Hmono. rewrite Hwindow, closedCount_app in Hmono.
    unfold closedCount at 2 in Hmono. rewrite filter_cons, decide_True in Hmono by done.
    simpl in *. lia.
  - exact Hlive.
  - intros term termId Hterm. simpl. rewrite Hterm. eexists.
    split; [reflexivity|]. simpl.
    split; [apply lookup_delete_eq|]. split; [reflexivity|].
    apply list_lookup_insert_eq. by eapply lookup_lt_Some.
  - intros term termId Hterm. simpl. by rewrite Hterm.
  - intros i s' Hstep Hnot termId. destruct s as [st ps ev pc].
    destruct i; simpl in Hstep.
    + unfold create_terminal in Hstep. destruct (pty host).
      * by destruct failure; simpl in Hstep; injection Hstep as <-.
      * simpl in Hstep. by injection Hstep as <-.
    + unfold terminal_input in Hstep.
      destruct (terminals st !! termId0); [destruct thrown|];
        by injection Hstep as <-.
    + unfold terminal_resize in Hstep.
      destruct (terminals st !! termId0); [destruct thrown|];
        by injection Hstep as <-.
    + unfold close_terminal in Hstep.
      destruct (terminals st !! termId0); [destruct thrown|];
        by injection Hstep as <-.
    + destruct (ps !! term) as [[id []]|]; try done.
      injection Hstep as <-. simpl.
      rewrite closedCount_app, closedCount_on_data. lia.
    + by destruct (Hnot term).
    + by injection Hstep as <-.
    + by injection Hstep as <-.
    + by injection Hstep as <-.
  - intros termId term Hlookup. simpl. unfold close_terminal.
    rewrite Hlookup. eexists. split; [reflexivity|]. simpl.
    split; [apply lookup_delete_eq|done].
  - intros i s' term p c Hstep Hp Hexited Hc Htarget.
    destruct (step_calls host s s' i c term Hstep Hc Htarget) as [termId Hlookup].
    specialize (Hlive termId term Hlookup). rewrite Hp in Hlive.
    injection Hlive as ->. done.
Qed.

Lemma session_closed_at_most_once_witness :
  exists s,
    run host0 initial plainRun = Some s /\
    procs s = [{| closure_termId := "t1"; exited := true |}] /\
    sent s = [TerminalClosed "t1"] /\
    registryLive s.
Proof.
  eexists. split; [reflexivity|]. split; [reflexivity|]. split; [reflexivity|].
  eapply (session_closed_at_most_once host0 plainRun). reflexivity.
Defined.

(** The session ["t1"] is created, the window is closed, and the process
    exits: the session is over and no [terminal-closed] was sent for it. *)
Lemma closed_window_no_event : ~ closedExactlyOnce host0 windowClosedRun.
Proof.
  intros Honce.
  specialize (Honce _ "t1" eq_refl eq_refl).
  discriminate Honce.
Qed.

(** * Further properties *)

(** ** Strings, splitting and joining *)

Lemma append_cons (c : ascii) (a b : string) :
  String c a +:+ b = String c (a +:+ b).
Proof. reflexivity. Qed.

Lemma chars_app (a b : string) : JS.chars (a +:+ b) = JS.chars a ++ JS.chars b.
Proof.
  induction a as [|c a IH]; [done|].
  rewrite append_cons. unfold JS.chars in *. simpl. by rewrite IH.
Qed.


Lemma startsWith_length (s t : string) :
  JS.startsWith s t = true -> (String.length t <= String.length s)%nat.
Proof.
  unfold JS.startsWith. revert s. induction t as [|c t IH]; intros s H.
  - simpl. lia.
  - destruct s as [|d s]; simpl in H; [done|].
    destruct (ascii_dec c d); [|done].
    specialize (IH s H). simpl. lia.
Qed.

Lemma length_append (a b : string) :
  String.length (a +:+ b) = (String.length a + String.length b)%nat.
Proof.
  induction a as [|c a IH]; [done|]. rewrite append_cons. simpl. by rewrite IH.
Qed.

Lemma append_assoc (a b c : string) : (a +:+ b) +:+ c = a +:+ (b +:+ c).
Proof.
  induction a as [|x a IH]; [done|]. rewrite !append_cons. by rewrite IH.
Qed.

Lemma append_empty_r (a : string) : a +:+ "" = a.
Proof.
  induction a as [|x a IH]; [done|]. rewrite append_cons. by rewrite IH.
Qed.

(** Splitting distributes over a separator. *)
Lemma split_chars_middle (sep : ascii) (cur l1 l2 : list ascii) :
  JS.split_chars sep cur (l1 ++ sep :: l2) =
    JS.split_chars sep cur l1 ++ JS.split_chars sep [] l2.
Proof.
  revert cur. induction l1 as [|c l1 IH]; intros cur; simpl.
  - by rewrite Ascii.eqb_refl.
  - destruct (Ascii.eqb c sep); [|apply IH]. simpl. by rewrite IH.
Qed.

Lemma split_append (sep : ascii) (a b : string) :
  JS.split sep (a +:+ String sep b) = JS.split sep a ++ JS.split sep b.
Proof.
  unfold JS.split. rewrite chars_app. simpl. apply split_chars_middle.
Qed.

Lemma split_one (sep : ascii) (s : string) :
  sep ∉ JS.chars s -> JS.split sep s = [s].
Proof.
  intros Hsep. unfold JS.split. rewrite (split_chars_no_sep sep [] _ Hsep).
  simpl. by rewrite str_chars.
Qed.

(** [split] undoes [concat] on pieces free of the separator. *)
Lemma split_concat (sep : ascii) (segs : list string) :
  segs <> [] -> Forall (fun s => sep ∉ JS.chars s) segs ->
  JS.split sep (String.concat (String sep "") segs) = segs.
Proof.
  intros Hne Hall. induction Hall as [|s segs Hs Hall IH]; [done|].
  destruct segs as [|s' segs].
  - simpl. by apply split_one.
  - assert (String.concat (String sep "") (s :: s' :: segs) =
            s +:+ String sep (String.concat (String sep "") (s' :: segs))) as ->
      by reflexivity.
    rewrite split_append, (split_one _ _ Hs), IH; done.
Qed.

Lemma elem_of_rev {A : Type} (x : A) (l : list A) : x ∈ rev l <-> x ∈ l.
Proof. rewrite !list_elem_of_In. symmetry. apply in_rev. Qed.

Lemma split_no_sep_pieces (sep : ascii) (cur l : list ascii) :
  sep ∉ cur ->
  Forall (fun s => sep ∉ JS.chars s) (JS.split_chars sep cur l).
Proof.
  revert cur. induction l as [|c l IH]; intros cur Hcur; simpl.
  - constructor; [|constructor]. rewrite chars_str. by rewrite elem_of_rev.
  - destruct (Ascii.eqb_spec c sep) as [->|Hne].
    + constructor.
      * rewrite chars_str. by rewrite elem_of_rev.
      * apply IH. apply not_elem_of_nil.
    + apply IH. apply not_elem_of_cons. split; [congruence|done].
Qed.

Lemma concat_app (rs qs : list string) :
  rs <> [] -> qs <> [] ->
  String.concat "/" (rs ++ qs) =
    String.concat "/" rs +:+ "/" +:+ String.concat "/" qs.
Proof.
  intros Hrs Hqs. induction rs as [|r rs IH]; [done|].
  destruct rs as [|r' rs].
  - simpl. by destruct qs.
  - change (String.concat "/" ((r :: r' :: rs) ++ qs))
      with (r +:+ "/" +:+ String.concat "/" ((r' :: rs) ++ qs)).
    rewrite IH by done.
    change (String.concat "/" (r :: r' :: rs))
      with (r +:+ "/" +:+ String.concat "/" (r' :: rs)).
    by rewrite !append_assoc.
Qed.

(** ** Normalization *)

Lemma normalizeSegments_app (a : bool) (res segs1 segs2 : list string) :
  Path.normalizeSegments a res (segs1 ++ segs2) =
    Path.normalizeSegments a (rev (Path.normalizeSegments a res segs1)) segs2.
Proof.
  revert res. induction segs1 as [|s segs1 IH]; intros res.
  - simpl. by rewrite rev_involutive.
  - cbn [app Path.normalizeSegments].
    destruct (String.eqb s "" || String.eqb s "."); [apply IH|].
    destruct (String.eqb s ".."); [|apply IH].
    destruct res as [|top res]; [apply IH|].
    destruct (String.eqb top ".."); apply IH.
Qed.

(** Without [..] the segments are kept or dropped one by one. *)
Lemma normalizeSegments_no_dotdot (a : bool) (res segs : list string) :
  Forall (fun s => s <> "..") segs ->
  Path.normalizeSegments a res segs =
    rev res ++ filter (fun s => keptSegment s = true) segs.
Proof.
  intros Hall. revert res. induction Hall as [|s segs Hs Hall IH]; intros res.
  - simpl. by rewrite app_nil_r.
  - cbn [Path.normalizeSegments].
    destruct (String.eqb s "" || String.eqb s ".") eqn:Hdrop.
    + rewrite filter_cons_False by (unfold keptSegment; by rewrite Hdrop).
      apply IH.
    + rewrite filter_cons_True by (unfold keptSegment; by rewrite Hdrop).
      destruct (String.eqb_spec s ".."); [done|].
      rewrite IH. simpl. by rewrite <- app_assoc.
Qed.

(** Each [..] removes one plain segment, as long as there is one. *)
Lemma normalizeSegments_climb (res : list string) (k : nat) :
  Forall (fun s => s <> "..") res ->
  Path.normalizeSegments false res (repeat ".." k) = rev (drop k res).
Proof.
  revert res. induction k as [|k IH]; intros res Hres.
  - simpl. by rewrite drop_0.
  - cbn [repeat Path.normalizeSegments]. simpl.
    destruct res as [|top res].
    + rewrite IH by constructor. by rewrite drop_nil.
    + apply Forall_cons in Hres as [Htop Hres].
      destruct (String.eqb_spec top ".."); [done|]. by apply IH.
Qed.

(** With [allowAboveRoot] off, what [normalizeString] keeps is plain. *)
Lemma normalizeSegments_plain (res segs : list string) :
  Forall plainSegment res ->
  Forall (fun s => "/"%char ∉ JS.chars s) segs ->
  Forall plainSegment (Path.normalizeSegments false res segs).
Proof.
  intros Hres Hsegs. revert res Hres.
  induction Hsegs as [|s segs Hs Hsegs IH]; intros res Hres.
  - simpl. by apply Forall_rev.
  - cbn [Path.normalizeSegments].
    destruct (String.eqb_spec s ""); [by apply IH|].
    destruct (String.eqb_spec s "."); [by apply IH|]. simpl.
    destruct (String.eqb_spec s "..").
    + destruct res as [|top res]; [by apply IH|].
      apply Forall_cons in Hres as [Htop Hres].
      destruct (String.eqb_spec top "..") as [->|_];
        [by destruct Htop as (_ & _ & ? & _)|by apply IH].
    + apply IH. by constructor.
Qed.

(** ** Paths that stay inside, paths that climb out *)

Lemma trailingSeparator_app (a p : string) :
  p <> "" -> Path.trailingSeparator (a +:+ p) = Path.trailingSeparator p.
Proof.
  intros Hp. unfold Path.trailingSeparator. rewrite chars_app, rev_app_distr.
  destruct p as [|c p]; [done|].
  unfold JS.chars. simpl. by destruct (rev (list_ascii_of_string p)).
Qed.

Lemma plain_kept (rs : list string) :
  Forall plainSegment rs -> filter (fun s => keptSegment s = true) rs = rs.
Proof.
  induction 1 as [|s rs (Hne & Hdot & _) _ IH]; [done|].
  rewrite filter_cons_True, IH; [done|]. unfold keptSegment.
  destruct (String.eqb_spec s ""); [done|]. by destruct (String.eqb_spec s ".").
Qed.

Lemma plain_no_slash (rs : list string) :
  Forall plainSegment rs -> Forall (fun s => "/"%char ∉ JS.chars s) rs.
Proof.
  intros H. eapply Forall_impl; [exact H|]. by intros s (_ & _ & _ & ?).
Qed.

Lemma plain_no_dotdot (rs : list string) :
  Forall plainSegment rs -> Forall (fun s => s <> "..") rs.
Proof.
  intros H. eapply Forall_impl; [exact H|]. by intros s (_ & _ & ? & _).
Qed.


(** The segments of [root/p]. *)
Lemma split_joined (rs : list string) (p : string) :
  rs <> [] -> Forall plainSegment rs ->
  JS.split "/" (absolutePath rs +:+ "/" +:+ p) = "" :: rs ++ JS.split "/" p.
Proof.
  intros Hne Hplain.
  assert (absolutePath rs +:+ "/" +:+ p =
          "" +:+ String "/" (String.concat "/" rs +:+ String "/" p)) as ->
    by reflexivity.
  rewrite !split_append.
  by rewrite (split_concat "/" rs Hne (plain_no_slash rs Hplain)).
Qed.








(** ** Climbing out *)

Lemma climb_shape (k : nat) :
  climb (S k) <> "" /\ Path.trailingSeparator (climb (S k)) = false /\
  JS.split "/" (climb (S k)) = repeat ".." (S k).
Proof.
  split; [|split].
  - unfold climb. simpl. by destruct (repeat ".." k).
  - induction k as [|k IH]; [reflexivity|].
    unfold climb in *.
    change (String.concat "/" (repeat ".." (S (S k))))
      with (("../") +:+ String.concat "/" (repeat ".." (S k))).
    rewrite trailingSeparator_app; [exact IH|].
    simpl. by destruct (repeat ".." k).
  - unfold climb. apply (split_concat "/"); [done|].
    apply Forall_forall. intros s Hs. apply list_elem_of_In, repeat_spec in Hs.
    subst. compute_done.
Qed.

Lemma concat_length_grows (l1 l2 : list string) :
  l2 <> [] -> Forall (fun s => s <> "") (l1 ++ l2) ->
  (String.length (String.concat "/" l1) <
   String.length (String.concat "/" (l1 ++ l2)))%nat.
Proof.
  intros Hl2 Hall. destruct l1 as [|r l1].
  - destruct l2 as [|s l2]; [done|]. apply Forall_cons in Hall as [Hs _].
    simpl. destruct s; [done|]. destruct l2; simpl; lia.
  - rewrite concat_app by done. rewrite !length_append. simpl. lia.
Qed.

(** [path.join(root, climb k)] is shorter than the root. *)
Lemma join_climb_shorter (rs : list string) (k : nat) :
  rs <> [] -> Forall plainSegment rs -> (0 < k)%nat ->
  (String.length (Path.join [absolutePath rs; climb k]) <
   String.length (absolutePath rs))%nat.
Proof.
  intros Hne Hplain Hk. destruct k as [|k]; [lia|].
  destruct (climb_shape k) as (Hnonempty & Htrail & Hsplit).
  assert (Hjoin : Path.join [absolutePath rs; climb (S k)] =
                  Path.normalize (absolutePath rs +:+ "/" +:+ climb (S k))).
  { destruct (climb (S k)); [done|]. reflexivity. }
  rewrite Hjoin. unfold Path.normalize.
  assert (JS.truthy (absolutePath rs +:+ "/" +:+ climb (S k)) = true) as ->
    by reflexivity.
  assert (Path.isAbsolute (absolutePath rs +:+ "/" +:+ climb (S k)) = true) as ->
    by reflexivity.
  cbn [negb].
  assert (Htrail' : Path.trailingSeparator
                      (absolutePath rs +:+ "/" +:+ climb (S k)) = false).
  { rewrite <- append_assoc. by rewrite trailingSeparator_app. }
  rewrite Htrail'.
  assert (Hnorm : Path.normalizeString (absolutePath rs +:+ "/" +:+ climb (S k)) false =
                  String.concat "/" (rev (drop (S k) (rev rs)))).
  { unfold Path.normalizeString, Path.sep.
    rewrite (split_joined rs _ Hne Hplain), Hsplit.
    change ("" :: rs ++ repeat ".." (S k)) with (("" :: rs) ++ repeat ".." (S k)).
    rewrite normalizeSegments_app.
    rewrite (normalizeSegments_no_dotdot false [] ("" :: rs))
      by (constructor; [done|by apply plain_no_dotdot]).
    rewrite filter_cons_False by done. rewrite (plain_kept rs Hplain).
    cbn [rev app]. f_equal.
    apply normalizeSegments_climb. apply Forall_rev. by apply plain_no_dotdot. }
  rewrite Hnorm.
  assert (Hrs : rs = rev (drop (S k) (rev rs)) ++ rev (take (S k) (rev rs))).
  { rewrite <- rev_app_distr, take_drop. by rewrite rev_involutive. }
  assert (Hgrow : (String.length (String.concat "/" (rev (drop (S k) (rev rs)))) <
                   String.length (String.concat "/" rs))%nat).
  { rewrite Hrs at 2. apply concat_length_grows.
    - intros Hnil. apply (f_equal (@rev string)) in Hnil.
      rewrite rev_involutive in Hnil.
      destruct (rev rs) as [|x l] eqn:Hrev; [|done].
      apply (f_equal (@rev string)) in Hrev. rewrite rev_involutive in Hrev. done.
    - rewrite <- Hrs. eapply Forall_impl; [exact Hplain|]. by intros s (? & _). }
  unfold absolutePath.
  destruct (JS.truthy _); cbn [negb];
    rewrite ?append_empty_r, ?length_append; simpl; lia.
Qed.

(** X2: with a root in normal form, a relative path made of [..] segments
    only ([..], [../..], ...) is turned down by every file handler, with
    no call to the file system. *)
Theorem climb_rejected (localeCompare : string -> string -> Z)
  (fs : Fs.FileSystem) (rs : list string) (k : nat) (content : string) :
  rs <> [] -> Forall plainSegment rs -> (0 < k)%nat ->
  let root := absolutePath rs in
  list_files localeCompare fs (Some root) (climb k) =
    (ListError "Invalid path" [], []) /\
  read_file fs (Some root) (climb k) = (ReadError "Invalid path", []) /\
  save_file fs (Some root) (climb k) content = (SaveError "Invalid path", []) /\
  get_file_path fs (Some root) (climb k) = (None, []) /\
  get_file_mtime fs (Some root) (climb k) = (MtimeNull, []).
Proof.
  intros Hne Hplain Hk root.
  apply not_prefixed_rejected; [done| |].
  - destruct k as [|k]; [lia|]. apply (climb_shape k).
  - destruct (JS.startsWith _ _) eqn:Hprefix; [|done].
    apply startsWith_length in Hprefix.
    pose proof (join_climb_shorter rs k Hne Hplain Hk). subst root. lia.
Qed.

Lemma climb_rejected_witness :
  read_file sampleFs (Some "/home/u/proj") "../.." = (ReadError "Invalid path", []).
Proof.
  pose proof (climb_rejected codeUnitCompare sampleFs ["home"; "u"; "proj"]
                2 "") as H.
  destruct H as (_ & Hread & _); [done|compute_done|lia|].
  exact Hread.
Defined.

(** ** The workspace root *)

Lemma isAbsolute_app (a b : string) :
  Path.isAbsolute a = true -> Path.isAbsolute (a +:+ b) = true.
Proof. by destruct a. Qed.

(** [path.resolve] of anything, from an absolute working directory, is a
    slash followed by plain segments. *)
Lemma resolve_normal_form (cwd p : string) :
  Path.isAbsolute cwd = true ->
  exists rs, Forall plainSegment rs /\ Path.resolve cwd p = absolutePath rs.
Proof.
  intros Hcwd. unfold Path.resolve.
  set (resolvedPath := if negb (JS.truthy p) then cwd +:+ "/"
                       else if Path.isAbsolute p then p +:+ "/"
                       else cwd +:+ "/" +:+ p +:+ "/").
  assert (Habs : Path.isAbsolute resolvedPath = true).
  { subst resolvedPath. destruct (JS.truthy p); cbn [negb].
    - destruct (Path.isAbsolute p) eqn:Hp; by apply isAbsolute_app.
    - by apply isAbsolute_app. }
  rewrite Habs. cbn [negb].
  exists (Path.normalizeSegments false [] (JS.split Path.sep resolvedPath)).
  split; [|reflexivity].
  apply normalizeSegments_plain; [constructor|].
  apply split_no_sep_pieces, not_elem_of_nil.
Qed.

(** The base name of a path in normal form is its last segment. *)
Lemma basename_absolutePath (rs : list string) :
  Forall plainSegment rs ->
  Path.basename (absolutePath rs) = default "" (last rs).
Proof.
  intros Hplain. unfold Path.basename, Path.sep.
  destruct (decide (rs = [])) as [->|Hne]; [reflexivity|].
  assert (absolutePath rs = "" +:+ String "/" (String.concat "/" rs)) as ->
    by reflexivity.
  rewrite split_append, (split_concat "/" rs Hne (plain_no_slash rs Hplain)).
  change (JS.split "/" "" ++ rs) with ("" :: rs).
  cbn [rev]. rewrite filter_app.
  destruct (rev_head_of_Forall plainSegment rs Hne Hplain)
    as (r & rest & Hrev & (Hr & _)).
  rewrite Hrev. rewrite filter_cons_True by by destruct r.
  cbn [app]. apply (f_equal (@rev string)) in Hrev.
  rewrite rev_involutive in Hrev. rewrite Hrev. simpl.
  by rewrite last_snoc.
Qed.

(** X3: when the working directory of the process is absolute, a root
    set by [set-directory] is in normal form: a slash followed by segments
    that are not empty, not [.], not [..] and hold no slash; the name
    replied with it is its last segment. *)
Theorem set_directory_normal_form (host : Host) (fs : Fs.FileSystem)
  (root : option string) (dirPath p n : string) (root' : option string)
  (calls : list Fs.Call) :
  Path.isAbsolute (cwd host) = true ->
  set_directory host fs root dirPath = (Ok (DirOk p n), root', calls) ->
  root' = Some p /\
  exists rs, Forall plainSegment rs /\ p = absolutePath rs /\
             n = default "" (last rs).
Proof.
  intros Hcwd Hset. unfold set_directory in Hset.
  destruct (resolve_normal_form (cwd host)
              (JS.replace_leading_tilde dirPath (homedir host)) Hcwd)
    as (rs & Hplain & Hresolve).
  destruct (Fs.existsSync fs _); [|done].
  destruct (Fs.statSync fs _) as [st|]; [|done].
  destruct (Fs.stat_isDirectory st); [|done].
  injection Hset as <- <- <- <-. split; [done|]. exists rs.
  split; [done|]. split; [done|].
  rewrite Hresolve. by apply basename_absolutePath.
Qed.

Lemma set_directory_normal_form_witness :
  Some "/Users/u/tex" = Some "/Users/u/tex" /\
  exists rs, Forall plainSegment rs /\ "/Users/u/tex" = absolutePath rs /\
             "tex" = default "" (last rs).
Proof.
  apply (set_directory_normal_form host0 homeFs None "~/work/../tex/"
           "/Users/u/tex" "tex" (Some "/Users/u/tex")
           [Fs.ExistsSync "/Users/u/tex"; Fs.StatSync "/Users/u/tex"]);
    reflexivity.
Defined.

(** X4: what [get-current-directory] replies follows the last successful
    choice.  After [set-directory] it is the reply of [set-directory] when
    that was a success, and what it was before when that was an error;
    after the directory dialog it is the reply of the dialog when a
    directory was picked, and what it was before when the dialog was
    cancelled or came back empty. *)
Theorem current_directory_follows (host : Host) (fs : Fs.FileSystem)
  (root : option string) (dirPath : string) (result : DialogResult) :
  (let '(reply, root', _) := set_directory host fs root dirPath in
   match reply with
   | Ok (DirOk p n) => get_current_directory root' = Some (DirOk p n)
   | _ => get_current_directory root' = get_current_directory root
   end) /\
  (let '(reply, root') := open_directory_dialog root result in
   match reply with
   | Some (DirOk p n) =>
       canceled result = false /\ head (filePaths result) = Some p /\
       root' = Some p /\
       (p <> "" -> get_current_directory root' = reply)
   | _ =>
       (canceled result = true \/ filePaths result = []) /\ root' = root
   end).
Proof.
  split.
  - unfold set_directory.
    destruct (Fs.existsSync fs _); [|done].
    destruct (Fs.statSync fs _) as [st|]; [|done].
    destruct (Fs.stat_isDirectory st); [|done].
    unfold get_current_directory.
    destruct (Path.resolve _ _) as [|c s] eqn:Hres; [|done].
    (* a resolved path is never empty *)
    unfold Path.resolve in Hres.
    destruct (Path.isAbsolute _); [done|].
    by destruct (JS.truthy (Path.normalizeString _ _)) eqn:Ht;
      [destruct (Path.normalizeString _ _)|].
  - unfold open_directory_dialog.
    destruct (canceled result); simpl; [by split; [left|]|].
    destruct (filePaths result) as [|dir rest]; simpl; [by split; [right|]|].
    repeat split. intros Hdir. unfold get_current_directory.
    by destruct dir.
Qed.

(** ** What the file handlers never do *)

(** X5: whatever the root and the relative path, a file handler makes at
    most one call to the file system, and only on a path that starts with
    the characters of the workspace root; with no root set it makes
    none. *)
Theorem file_calls_confined (localeCompare : string -> string -> Z)
  (fs : Fs.FileSystem) (root : option string) (p content : string) :
  confined root (list_files localeCompare fs root p).2 /\
  confined root (read_file fs root p).2 /\
  confined root (save_file fs root p content).2 /\
  confined root (get_file_path fs root p).2 /\
  confined root (get_file_mtime fs root p).2 /\
  (root = None ->
   (list_files localeCompare fs root p).2 = [] /\
   (read_file fs root p).2 = [] /\
   (save_file fs root p content).2 = [] /\
   (get_file_path fs root p).2 = [] /\
   (get_file_mtime fs root p).2 = []).
Proof.
  assert (Hone : forall (cd : string) (c : Fs.Call),
             JS.startsWith (pathOf c) cd = true -> confined (Some cd) [c]).
  { intros cd c Hc. right. by exists cd, c. }
  unfold list_files, read_file, save_file, get_file_path, get_file_mtime,
    validRequest, Fs.existsSync, Fs.statSync.
  destruct root as [cd|]; [|by repeat split; try left].
  repeat split; try done.
  - destruct (JS.truthy cd); [|by left]. cbn [negb].
    destruct (JS.startsWith _ cd) eqn:Hprefix; [|by left]. cbn [negb].
    destruct (Fs.readdir fs _); by apply Hone.
  - destruct (JS.truthy cd && JS.truthy p); [|by left].
    destruct (JS.startsWith _ cd) eqn:Hprefix; [|by left]. cbn [negb].
    destruct (Fs.readFile fs _); by apply Hone.
  - destruct (JS.truthy cd && JS.truthy p); [|by left].
    destruct (JS.startsWith _ cd) eqn:Hprefix; [|by left]. cbn [negb].
    destruct (Fs.writeFile fs _ _); by apply Hone.
  - destruct (JS.truthy cd && JS.truthy p); [|by left].
    destruct (JS.startsWith _ cd) eqn:Hprefix; [|by left]. cbn [negb].
    destruct (Fs.stat fs _); by apply Hone.
  - destruct (JS.truthy cd && JS.truthy p); [|by left].
    destruct (JS.startsWith _ cd) eqn:Hprefix; [|by left]. cbn [negb].
    destruct (Fs.stat fs _); by apply Hone.
Qed.

(** ** The content flags of a listing *)

Lemma includes_cases (arr : list string) (x : string) :
  JS.includes arr x = true -> x ∈ arr.
Proof.
  unfold JS.includes. intros H. apply existsb_exists in H as (y & Hin & Heq).
  apply String.eqb_eq in Heq as ->. by apply list_elem_of_In.
Qed.

(** X6: in every reply of [list-files], each entry that is not a
    directory is exactly one of text, PDF and image, no entry carries two
    of the three flags, and a directory is never text. *)
Theorem listing_content_flags (localeCompare : string -> string -> Z)
  (fs : Fs.FileSystem) (root : option string) (relativePath : string) :
  Forall (fun f =>
            (isDirectory f = false -> contentFlags f = 1%nat) /\
            (contentFlags f <= 1)%nat /\
            (isDirectory f = true -> isText f = false))
    (files_of (list_files localeCompare fs root relativePath).1).
Proof.
  assert (Hflags : forall ext : string,
             (JS.includes ALLOWED_EXTENSIONS ext = true ->
              ((if JS.includes TEXT_EXTENSIONS ext then 1 else 0) +
               (if String.eqb ext ".pdf" then 1 else 0) +
               (if JS.includes [".jpg"; ".jpeg"; ".png"; ".gif"; ".svg"] ext
                then 1 else 0) = 1)%nat) /\
             ((if JS.includes TEXT_EXTENSIONS ext then 1 else 0) +
              (if String.eqb ext ".pdf" then 1 else 0) +
              (if JS.includes [".jpg"; ".jpeg"; ".png"; ".gif"; ".svg"] ext
               then 1 else 0) <= 1)%nat /\
             ((if String.eqb ext ".pdf" then 1 else 0) +
              (if JS.includes [".jpg"; ".jpeg"; ".png"; ".gif"; ".svg"] ext
               then 1 else 0) <= 1)%nat).
  { intros ext. split; [|split].
    - intros Hin. apply includes_cases in Hin.
      unfold ALLOWED_EXTENSIONS in Hin.
      repeat (apply elem_of_cons in Hin as [->|Hin]; [reflexivity|]).
      by apply elem_of_nil in Hin.
    - destruct (JS.includes TEXT_EXTENSIONS ext) eqn:Ht.
      + apply includes_cases in Ht. unfold TEXT_EXTENSIONS in Ht.
        repeat (apply elem_of_cons in Ht as [->|Ht]; [simpl; lia|]).
        by apply elem_of_nil in Ht.
      + destruct (String.eqb_spec ext ".pdf") as [->|_]; [simpl; lia|].
        destruct (JS.includes (".jpg" :: _) ext); simpl; lia.
    - destruct (String.eqb_spec ext ".pdf") as [->|_]; [simpl; lia|].
      destruct (JS.includes (".jpg" :: _) ext); simpl; lia. }
  unfold list_files.
  destruct root as [cd|]; [|constructor].
  destruct (JS.truthy cd); [|constructor]. cbn [negb].
  destruct (JS.startsWith _ cd); [|constructor]. cbn [negb].
  destruct (Fs.readdir fs _) as [entries|]; [|constructor]. simpl.
  apply Forall_listing. intros e _ _ Hallowed.
  unfold allowed in Hallowed. unfold contentFlags. simpl.
  destruct (Hflags (JS.toLowerCase (Path.extname (Fs.name e))))
    as (Hone & Hmost & Hdir).
  destruct (Fs.isDirectory e); simpl.
  - repeat split; [done|exact Hdir].
  - repeat split; [intros _; by apply Hone|exact Hmost|done].
Qed.

(** ** Odd outputs of tmux *)

Lemma trimStart_blank (l : list ascii) :
  Forall (fun c => JS.isWhiteSpace c = true) l -> JS.trimStart_chars l = [].
Proof.
  induction 1 as [|c l Hc _ IH]; [done|].
  cbn [JS.trimStart_chars]. by rewrite Hc.
Qed.

(** X7: when tmux prints nothing, or white space only, the result is the
    empty sequence. *)
Theorem tmux_blank_output (stdout : string) :
  Forall (fun c => JS.isWhiteSpace c = true) (JS.chars stdout) ->
  list_tmux_sessions (Ok stdout) = [].
Proof.
  intros Hblank. unfold list_tmux_sessions, JS.trim.
  by rewrite (trimStart_blank _ Hblank).
Qed.

Lemma tmux_blank_output_witness :
  list_tmux_sessions (Ok "
  ") = [].
Proof. apply tmux_blank_output. compute_done. Defined.

(** X8: a line is cut at every colon and its first three pieces are
    used: the name is the first, the window count is [parseInt] of the
    second ([NaN] when there is none), and [attached] holds exactly when
    there is a third piece and it is ["1"]; further pieces are ignored. *)
Theorem parseLine_fields (fields : list string) :
  fields <> [] -> Forall (fun s => ":"%char ∉ JS.chars s) fields ->
  parseLine (String.concat ":" fields) =
    {| Tmux.name := default "" (head fields);
       Tmux.windows := JS.parseInt (fields !! 1%nat);
       Tmux.attached := bool_decide (fields !! 2%nat = Some "1") |}.
Proof.
  intros Hne Hall. unfold parseLine.
  rewrite (split_concat ":" fields Hne Hall).
  f_equal.
  - by destruct fields.
  - destruct (fields !! 2%nat) as [a|]; [|done].
    destruct (String.eqb_spec a "1") as [->|Hne1].
    + by rewrite bool_decide_eq_true_2.
    + rewrite bool_decide_eq_false_2; [done|]. by intros [= ->].
Qed.

Lemma parseLine_fields_witness :
  parseLine (String.concat ":" ["scratch"]) =
    {| Tmux.name := "scratch"; Tmux.windows := JS.NaN; Tmux.attached := false |} /\
  parseLine (String.concat ":" ["proj"; "3"; "1"; "extra"]) =
    {| Tmux.name := "proj"; Tmux.windows := JS.Finite 3; Tmux.attached := true |}.
Proof.
  split.
  - rewrite (parseLine_fields ["scratch"]); [reflexivity|done|compute_done].
  - rewrite (parseLine_fields ["proj"; "3"; "1"; "extra"]);
      [reflexivity|done|compute_done].
Defined.

(** ** The registry *)

(** X9: when the window closes, every pty object of the registry is
    killed, once, and nothing else is called; the registry is left empty,
    so that every later input, resize or close request is a no-op; the
    workspace root stays. *)
Theorem window_closed_kills_all (st : State) :
  let '(st', calls) := window_closed st in
  terminals st' = ∅ /\ mainWindow st' = false /\
  currentDirectory st' = currentDirectory st /\
  (forall term, Kill term ∈ calls <-> exists termId, terminals st !! termId = Some term) /\
  (forall c, c ∈ calls -> exists term, c = Kill term) /\
  length calls = size (terminals st) /\
  (forall termId data c r thrown,
      terminal_input st' termId data thrown = (Ok (), st', []) /\
      terminal_resize st' termId c r thrown = (Ok (), st', []) /\
      close_terminal st' termId thrown = (Ok CloseOk, st', [])).
Proof.
  unfold window_closed. repeat split; try done.
  - intros Hin. apply list_elem_of_fmap in Hin as ([termId t] & [= ->] & Hin).
    exists termId. by apply elem_of_map_to_list in Hin.
  - intros [termId Hlookup]. apply list_elem_of_fmap.
    exists (termId, term). split; [done|]. by apply elem_of_map_to_list.
  - intros c Hin. apply list_elem_of_fmap in Hin as ([termId t] & -> & _).
    by exists t.
  - by rewrite length_map, length_map_to_list.
Qed.

(** X10: creating a session under a free ID and closing it puts the
    state back as it was; the two handlers spawn one process and kill that
    same process. *)
Theorem create_close_round_trip (host : Host) (st : State) (termId : string)
  (options : Options) (term : Handle) :
  pty host = true -> terminals st !! termId = None ->
  let '(reply1, st1, calls1) := create_terminal host st termId options (Ok term) in
  let '(reply2, st2, calls2) := close_terminal st1 termId None in
  reply1 = CreateOk termId /\ reply2 = Ok CloseOk /\ st2 = st /\
  calls1 ++ calls2 = [Spawn (spawnRequest host st options); Kill term].
Proof.
  intros Hpty Hfree. unfold create_terminal. rewrite Hpty. cbn [negb].
  unfold close_terminal. cbn [terminals]. rewrite lookup_insert_eq.
  repeat split. unfold set_terminals. cbn [terminals currentDirectory mainWindow].
  rewrite delete_insert_eq, delete_id by done. by destruct st.
Qed.

Lemma create_close_round_trip_witness :
  let '(reply1, st1, calls1) :=
    create_terminal host0 (main initial) "t1" noOptions (Ok 0%nat) in
  let '(reply2, st2, calls2) := close_terminal st1 "t1" None in
  reply1 = CreateOk "t1" /\ reply2 = Ok CloseOk /\ st2 = main initial /\
  calls1 ++ calls2 = [Spawn (spawnRequest host0 (main initial) noOptions); Kill 0%nat].
Proof.
  apply (create_close_round_trip host0 (main initial) "t1" noOptions 0%nat);
    reflexivity.
Defined.

(** X11: once a session is created, input and resize for its ID go to
    the pty object that was just spawned, and requests for every other ID
    are routed as before the create. *)
Theorem created_session_routed (host : Host) (st : State) (termId : string)
  (options : Options) (term : Handle) (data : string) (c r : Z) :
  pty host = true ->
  let st1 := (create_terminal host st termId options (Ok term)).1.2 in
  terminal_input st1 termId data None = (Ok (), st1, [Write term data]) /\
  terminal_resize st1 termId c r None = (Ok (), st1, [Resize term c r]) /\
  (forall other thrown, other <> termId ->
      (terminal_input st1 other data thrown).2 =
        (terminal_input st other data thrown).2 /\
      (terminal_resize st1 other c r thrown).2 =
        (terminal_resize st other c r thrown).2 /\
      (close_terminal st1 other thrown).2 = (close_terminal st other thrown).2).
Proof.
  intros Hpty st1. subst st1. unfold create_terminal. rewrite Hpty.
  cbn [negb fst snd].
  unfold terminal_input, terminal_resize, close_terminal. cbn [terminals].
  rewrite lookup_insert_eq. repeat split;
    rewrite lookup_insert_ne by done;
    by destruct (terminals st !! other); [destruct thrown|].
Qed.

Lemma created_session_routed_witness :
  let st1 := (create_terminal host0 (main initial) "t1" noOptions (Ok 0%nat)).1.2 in
  terminal_input st1 "t1" "ls" None = (Ok (), st1, [Write 0%nat "ls"]).
Proof.
  apply (created_session_routed host0 (main initial) "t1" noOptions 0%nat "ls" 80 24).
  reflexivity.
Defined.

(** ** Runs of the main process *)

Lemma no_pty_step (host : Host) (s s' : System) (i : Input) :
  pty host = false -> quiet s -> step host s i = Some s' -> quiet s'.
Proof.
  intros Hpty (Ht & Hps & Hpc & Hev) Hstep.
  destruct s as [st ps ev pc]. simpl in *. subst ps pc ev.
  destruct i; simpl in Hstep.
  - unfold create_terminal in Hstep. rewrite Hpty in Hstep. simpl in Hstep.
    by injection Hstep as <-.
  - unfold terminal_input in Hstep. rewrite Ht, lookup_empty in Hstep.
    by injection Hstep as <-.
  - unfold terminal_resize in Hstep. rewrite Ht, lookup_empty in Hstep.
    by injection Hstep as <-.
  - unfold close_terminal in Hstep. rewrite Ht, lookup_empty in Hstep.
    by injection Hstep as <-.
  - done.
  - done.
  - injection Hstep as <-. unfold quiet. simpl. by rewrite Ht, map_to_list_empty.
  - by injection Hstep as <-.
  - by injection Hstep as <-.
Qed.

Lemma no_pty_run (host : Host) (inputs : list Input) (s s' : System) :
  pty host = false -> quiet s -> run host s inputs = Some s' -> quiet s'.
Proof.
  intros Hpty. revert s. induction inputs as [|i inputs IH]; intros s Hq Hrun.
  - by injection Hrun as <-.
  - cbn [run] in Hrun. destruct (step host s i) as [s1|] eqn:Hstep; [|done].
    apply (IH s1); [by eapply no_pty_step|done].
Qed.

(** X12: when [node-pty] could not be loaded, nothing is ever spawned:
    in every state the main process can reach the registry is empty, no
    call was made to the pty backend and no terminal message was sent;
    every create request replies [Terminal not available]. *)
Theorem no_pty_nothing_happens (host : Host) (inputs : list Input) (s : System) :
  pty host = false ->
  run host initial inputs = Some s ->
  quiet s /\
  (forall termId options spawned,
      create_terminal host (main s) termId options spawned =
        (CreateError "Terminal not available", main s, [])).
Proof.
  intros Hpty Hrun. split.
  - by apply (no_pty_run host inputs initial s).
  - intros termId options spawned. unfold create_terminal. by rewrite Hpty.
Qed.

Lemma no_pty_nothing_happens_witness :
  exists s, run noPtyHost initial noPtyRun = Some s /\ quiet s.
Proof.
  eexists. split; [reflexivity|].
  apply (no_pty_nothing_happens noPtyHost noPtyRun); reflexivity.
Defined.

(** X13: in every state the main process can reach, two IDs of the
    registry never share a pty object. *)
Theorem registry_injective (host : Host) (inputs : list Input) (s : System)
  (id1 id2 : string) (term1 term2 : Handle) :
  run host initial inputs = Some s ->
  terminals (main s) !! id1 = Some term1 ->
  terminals (main s) !! id2 = Some term2 ->
  id1 <> id2 -> term1 <> term2.
Proof.
  intros Hrun H1 H2 Hne <-.
  destruct (run_invariant host inputs initial s) as [Hlive _];
    [apply initial_invariant..|exact Hrun|].
  pose proof (Hlive id1 term1 H1) as Hp1. pose proof (Hlive id2 term1 H2) as Hp2.
  rewrite Hp1 in Hp2. by injection Hp2.
Qed.

Lemma registry_injective_witness :
  exists s,
    run host0 initial twoSessionsRun = Some s /\
    terminals (main s) !! "a" = Some 0%nat /\
    terminals (main s) !! "b" = Some 1%nat /\
    0%nat <> 1%nat.
Proof.
  eexists. split; [reflexivity|]. split; [reflexivity|]. split; [reflexivity|].
  eapply (registry_injective host0 twoSessionsRun _ "a" "b" 0%nat 1%nat);
    [reflexivity|reflexivity|reflexivity|done].
Defined.

(** Every step adds its calls at the end of the log. *)
Lemma step_ptyCalls (host : Host) (s s' : System) (i : Input) :
  step host s i = Some s' ->
  ptyCalls s' = ptyCalls s ++ callsSince s s'.
Proof.
  intros Hstep. unfold callsSince. destruct s as [st ps ev pc].
  assert (Hdrop : forall calls : list PtyCall,
             pc ++ calls = pc ++ drop (length pc) (pc ++ calls)).
  { intros calls. by rewrite drop_app_length. }
  destruct i; simpl in Hstep.
  - unfold create_terminal in Hstep. destruct (pty host).
    + destruct failure; simpl in Hstep; injection Hstep as <-; apply Hdrop.
    + simpl in Hstep. injection Hstep as <-. apply Hdrop.
  - unfold terminal_input in Hstep.
    destruct (terminals st !! termId); [destruct thrown|];
      injection Hstep as <-; apply Hdrop.
  - unfold terminal_resize in Hstep.
    destruct (terminals st !! termId); [destruct thrown|];
      injection Hstep as <-; apply Hdrop.
  - unfold close_terminal in Hstep.
    destruct (terminals st !! termId); [destruct thrown|];
      injection Hstep as <-; apply Hdrop.
  - destruct (ps !! term) as [[id []]|]; try done.
    injection Hstep as <-. simpl. by rewrite drop_all, app_nil_r.
  - destruct (ps !! term) as [[id []]|]; try done.
    injection Hstep as <-. simpl. by rewrite drop_all, app_nil_r.
  - injection Hstep as <-. apply Hdrop.
  - injection Hstep as <-. simpl. by rewrite drop_all, app_nil_r.
  - injection Hstep as <-. simpl. by rewrite drop_all, app_nil_r.
Qed.

(** A pty object that exists and is not in the registry does not come
    back into it. *)
Lemma step_unregistered (host : Host) (s s' : System) (i : Input)
  (term : Handle) :
  (term < length (procs s))%nat -> ~ registered s term ->
  step host s i = Some s' ->
  (term < length (procs s'))%nat /\ ~ registered s' term.
Proof.
  intros Hlt Hnot Hstep. destruct s as [st ps ev pc]. unfold registered in *.
  simpl in Hlt, Hnot.
  assert (Hdel : forall id, ~ exists termId,
             delete id (terminals st) !! termId = Some term).
  { intros id [termId Hl]. apply lookup_delete_Some in Hl as [_ Hl].
    apply Hnot. by exists termId. }
  destruct i; simpl in Hstep.
  - unfold create_terminal in Hstep. destruct (pty host).
    + destruct failure; simpl in Hstep; injection Hstep as <-; simpl; [done|].
      split; [rewrite length_app; simpl; lia|].
      intros [id Hl]. apply lookup_insert_Some in Hl as [[_ Heq]|[_ Hl]].
      * lia.
      * apply Hnot. by exists id.
    + simpl in Hstep. by injection Hstep as <-.
  - unfold terminal_input in Hstep.
    destruct (terminals st !! termId); [destruct thrown|];
      injection Hstep as <-; simpl; split; try done; apply Hdel.
  - unfold terminal_resize in Hstep.
    destruct (terminals st !! termId); [destruct thrown|];
      injection Hstep as <-; simpl; split; try done; apply Hdel.
  - unfold close_terminal in Hstep.
    destruct (terminals st !! termId); [destruct thrown|];
      injection Hstep as <-; simpl; split; try done; apply Hdel.
  - destruct (ps !! term0) as [[id []]|]; try done.
    by injection Hstep as <-.
  - destruct (ps !! term0) as [[id []]|]; try done.
    injection Hstep as <-. simpl. split; [by rewrite length_insert|apply Hdel].
  - injection Hstep as <-. simpl. split; [done|].
    intros [id Hl]. by rewrite lookup_empty in Hl.
  - by injection Hstep as <-.
  - by injection Hstep as <-.
Qed.

(** Out of the registry, out for good. *)
Lemma unregistered_stays_out (host : Host) (s s' : System)
  (later : list Input) (term : Handle) :
  (term < length (procs s))%nat -> ~ registered s term ->
  run host s later = Some s' ->
  ~ registered s' term /\
  ptyCalls s' = ptyCalls s ++ callsSince s s' /\
  Forall (fun c => targetOf c <> Some term) (callsSince s s').
Proof.
  revert s. induction later as [|i later IH]; intros s Hlt Hnot Hrun.
  - injection Hrun as <-. unfold callsSince. rewrite drop_all, app_nil_r.
    by repeat split.
  - cbn [run] in Hrun. destruct (step host s i) as [s1|] eqn:Hstep; [|done].
    destruct (step_unregistered host s s1 i term Hlt Hnot Hstep) as [Hlt1 Hnot1].
    destruct (IH s1 Hlt1 Hnot1 Hrun) as (Hnot' & Hcalls & Hall).
    pose proof (step_ptyCalls host s s1 i Hstep) as Hcalls1.
    assert (Hsince : callsSince s s' = callsSince s s1 ++ callsSince s1 s').
    { unfold callsSince at 1. rewrite Hcalls, Hcalls1, <- app_assoc.
      by rewrite drop_app_length. }
    split; [exact Hnot'|]. split.
    + rewrite Hsince, Hcalls, Hcalls1. by rewrite <- app_assoc.
    + rewrite Hsince. apply Forall_app. split; [|exact Hall].
      apply Forall_forall. intros c Hc Htarget.
      destruct (step_calls host s s1 i c term Hstep Hc Htarget) as [id Hl].
      apply Hnot. by exists id.
Qed.

(** X14: a pty object that has left the registry (closed, exited, failed
    or overwritten) is never called again: no later write, resize or kill
    is made on it, and it does not come back into the registry. *)
Theorem unregistered_never_called (host : Host) (s s' : System)
  (later : list Input) (term : Handle) :
  (term < length (procs s))%nat -> ~ registered s term ->
  run host s later = Some s' ->
  ~ registered s' term /\
  ptyCalls s' = ptyCalls s ++ callsSince s s' /\
  Forall (fun c => targetOf c <> Some term) (callsSince s s').
Proof. apply unregistered_stays_out. Qed.

Lemma unregistered_never_called_witness :
  exists s s',
    run host0 initial closedRun = Some s /\
    run host0 s afterClose = Some s' /\
    Forall (fun c => targetOf c <> Some 0%nat) (callsSince s s').
Proof.
  eexists. eexists.
  split; [vm_compute; reflexivity|]. split; [vm_compute; reflexivity|].
  eapply (unregistered_never_called host0 _ _ afterClose 0%nat).
  - simpl. lia.
  - intros [termId Hl]. by vm_compute in Hl.
  - vm_compute. reflexivity.
Defined.

(** X15: when a create overwrites the entry of a live ID, the pty object
    that was there is orphaned for good: it is not killed by the create,
    it is not in the registry any more, and no later request of any kind
    writes to it, resizes it or kills it. *)
Theorem overwritten_session_orphaned (host : Host) (inputs later : list Input)
  (s s2 : System) (termId : string) (options : Options) (first : Handle) :
  pty host = true ->
  run host initial inputs = Some s ->
  terminals (main s) !! termId = Some first ->
  run host s (CreateTerminal termId options None :: later) = Some s2 ->
  ~ registered s2 first /\
  Forall (fun c => targetOf c <> Some first) (callsSince s s2).
Proof.
  intros Hpty Hrun Hfirst Hlater.
  destruct (run_invariant host inputs initial s) as [Hlive _];
    [apply initial_invariant..|exact Hrun|].
  cbn [run] in Hlater.
  destruct (step host s (CreateTerminal termId options None)) as [s1|] eqn:Hstep;
    [|done].
  pose proof (step_ptyCalls host s s1 _ Hstep) as Hcalls1.
  assert (Hlt : (first < length (procs s))%nat).
  { eapply lookup_lt_Some. by apply Hlive. }
  assert (Hs1 : (first < length (procs s1))%nat /\ ~ registered s1 first /\
                callsSince s s1 = [Spawn (spawnRequest host (main s) options)]).
  { destruct s as [st ps ev pc]. simpl in Hstep. unfold create_terminal in Hstep.
    rewrite Hpty in Hstep. simpl in Hstep. injection Hstep as <-.
    split; [simpl; rewrite length_app; simpl in *; lia|]. split.
    - intros [id Hl]. simpl in Hl.
      apply lookup_insert_Some in Hl as [[_ Heq]|[Hne Hl]].
      + simpl in Hlt. lia.
      + pose proof (Hlive id first Hl) as Hp. pose proof (Hlive termId first Hfirst) as Hp'.
        simpl in Hp, Hp'. rewrite Hp in Hp'. by injection Hp'.
    - unfold callsSince. simpl. by rewrite drop_app_length. }
  destruct Hs1 as (Hlt1 & Hnot1 & Hspawn).
  destruct (unregistered_stays_out host s1 s2 later first Hlt1 Hnot1 Hlater)
    as (Hnot2 & Hcalls2 & Hall).
  split; [exact Hnot2|].
  assert (Hsince : callsSince s s2 = callsSince s s1 ++ callsSince s1 s2).
  { unfold callsSince at 1. rewrite Hcalls2, Hcalls1, <- app_assoc.
    by rewrite drop_app_length. }
  rewrite Hsince, Hspawn. constructor; [done|exact Hall].
Qed.

Lemma overwritten_session_orphaned_witness :
  exists s s2,
    run host0 initial [CreateTerminal "t1" noOptions None] = Some s /\
    run host0 s (CreateTerminal "t1" noOptions None :: afterClose) = Some s2 /\
    Forall (fun c => targetOf c <> Some 0%nat) (callsSince s s2).
Proof.
  eexists. eexists.
  split; [vm_compute; reflexivity|]. split; [vm_compute; reflexivity|].
  eapply (overwritten_session_orphaned host0
            [CreateTerminal "t1" noOptions None] afterClose _ _ "t1" noOptions 0%nat);
    vm_compute; reflexivity.
Defined.

(** X16: the exit callback deletes the entry of its ID whatever pty
    object the entry holds.  When the ID has been given to a newer session
    in the meantime, the exit of the older process removes the entry of
    the newer one: the newer process keeps running outside the registry, a
    [terminal-closed] is sent for the ID if the window is there, and input
    for the ID is dropped from then on. *)
Theorem stale_exit_drops_new_session (host : Host) (inputs : list Input)
  (s : System) (termId : string) (old new : Handle) :
  run host initial inputs = Some s ->
  procs s !! old = Some {| closure_termId := termId; exited := false |} ->
  terminals (main s) !! termId = Some new ->
  new <> old ->
  exists s',
    step host s (Exit old) = Some s' /\
    terminals (main s') !! termId = None /\
    ~ registered s' new /\
    procs s' !! new = Some {| closure_termId := termId; exited := false |} /\
    sent s' = sent s ++
              (if mainWindow (main s) then [TerminalClosed termId] else []) /\
    (forall data thrown,
        terminal_input (main s') termId data thrown = (Ok (), main s', [])).
Proof.
  intros Hrun Hold Hnew Hne.
  destruct (run_invariant host inputs initial s) as [Hlive _];
    [apply initial_invariant..|exact Hrun|].
  pose proof (Hlive termId new Hnew) as Hpnew.
  simpl. rewrite Hold. eexists. split; [reflexivity|]. simpl.
  split; [apply lookup_delete_eq|]. split; [|split; [|split]].
  - intros [id Hl]. simpl in Hl. apply lookup_delete_Some in Hl as [Hid Hl].
    pose proof (Hlive id new Hl) as Hp. rewrite Hpnew in Hp. by injection Hp.
  - by rewrite list_lookup_insert_ne.
  - reflexivity.
  - intros data thrown. unfold terminal_input. simpl.
    by rewrite lookup_delete_eq.
Qed.

Lemma stale_exit_drops_new_session_witness :
  exists s s',
    run host0 initial reuseRun = Some s /\
    terminals (main s) !! "t1" = Some 1%nat /\
    step host0 s (Exit 0%nat) = Some s' /\
    terminals (main s') !! "t1" = None /\
    procs s' !! 1%nat = Some {| closure_termId := "t1"; exited := false |}.
Proof.
  eexists. eexists. split; [reflexivity|]. split; [reflexivity|].
  split; [reflexivity|].
  destruct (stale_exit_drops_new_session host0 reuseRun _ "t1" 0%nat 1%nat
              eq_refl eq_refl eq_refl) as (s' & Hstep & Habsent & _ & Hproc & _);
    [done|].
  injection Hstep as <-. split; [exact Habsent|exact Hproc].
Defined.

(** ** The order of terminal output *)

Lemma outputsOf_app (l l' : list Event) :
  outputsOf (l ++ l') = outputsOf l ++ outputsOf l'.
Proof. unfold outputsOf. apply filter_app. Qed.

(** The ID captured by the callbacks of a pty object never changes. *)
Lemma step_closure_stable (host : Host) (s s' : System) (i : Input)
  (term : Handle) (p : PtyObject) :
  step host s i = Some s' -> procs s !! term = Some p ->
  exists p', procs s' !! term = Some p' /\ closure_termId p' = closure_termId p.
Proof.
  intros Hstep Hp. destruct s as [st ps ev pc]. simpl in Hp.
  destruct i; simpl in Hstep.
  - unfold create_terminal in Hstep. destruct (pty host).
    + destruct failure; simpl in Hstep; injection Hstep as <-; simpl.
      * by exists p.
      * exists p. split; [|done]. rewrite lookup_app_l; [done|].
        by eapply lookup_lt_Some.
    + simpl in Hstep. injection Hstep as <-. by exists p.
  - unfold terminal_input in Hstep.
    destruct (terminals st !! termId); [destruct thrown|];
      injection Hstep as <-; by exists p.
  - unfold terminal_resize in Hstep.
    destruct (terminals st !! termId); [destruct thrown|];
      injection Hstep as <-; by exists p.
  - unfold close_terminal in Hstep.
    destruct (terminals st !! termId); [destruct thrown|];
      injection Hstep as <-; by exists p.
  - destruct (ps !! term0) as [[id []]|]; try done.
    injection Hstep as <-. by exists p.
  - destruct (ps !! term0) as [[id []]|] eqn:Hterm; try done.
    injection Hstep as <-. simpl.
    destruct (decide (term0 = term)) as [->|Hne].
    + rewrite Hterm in Hp. injection Hp as <-.
      exists {| closure_termId := id; exited := true |}. split; [|reflexivity].
      apply list_lookup_insert_eq. by eapply lookup_lt_Some.
    + exists p. by rewrite list_lookup_insert_ne.
  - injection Hstep as <-. by exists p.
  - injection Hstep as <-. by exists p.
  - injection Hstep as <-. by exists p.
Qed.

Lemma run_closure_stable (host : Host) (inputs : list Input) (s s' : System)
  (term : Handle) (p : PtyObject) :
  run host s inputs = Some s' -> procs s !! term = Some p ->
  exists p', procs s' !! term = Some p' /\ closure_termId p' = closure_termId p.
Proof.
  revert s p. induction inputs as [|i inputs IH]; intros s p Hrun Hp.
  - injection Hrun as <-. by exists p.
  - cbn [run] in Hrun. destruct (step host s i) as [s1|] eqn:Hstep; [|done].
    destruct (step_closure_stable host s s1 i term p Hstep Hp) as (p1 & Hp1 & Hid1).
    destruct (IH s1 p1 Hrun Hp1) as (p' & Hp' & Hid').
    exists p'. split; [done|]. congruence.
Qed.

(** What one step adds to the [terminal-output] messages while the
    window is there. *)
Lemma step_outputs (host : Host) (s s' : System) (i : Input) :
  mainWindow (main s) = true -> closesWindow i = false ->
  step host s i = Some s' ->
  mainWindow (main s') = true /\
  outputsOf (sent s') = outputsOf (sent s) ++ dataOutputs (procs s) [i].
Proof.
  intros Hwin Hi Hstep. destruct s as [st ps ev pc]. simpl in Hwin.
  unfold dataOutputs. cbn [flat_map]. rewrite app_nil_r.
  destruct i; simpl in Hstep; try discriminate Hi.
  - unfold create_terminal in Hstep. destruct (pty host).
    + destruct failure; simpl in Hstep; injection Hstep as <-; simpl;
        by rewrite app_nil_r.
    + simpl in Hstep. injection Hstep as <-. simpl. by rewrite app_nil_r.
  - unfold terminal_input in Hstep.
    destruct (terminals st !! termId); [destruct thrown|];
      injection Hstep as <-; simpl; by rewrite app_nil_r.
  - unfold terminal_resize in Hstep.
    destruct (terminals st !! termId); [destruct thrown|];
      injection Hstep as <-; simpl; by rewrite app_nil_r.
  - unfold close_terminal in Hstep.
    destruct (terminals st !! termId); [destruct thrown|];
      injection Hstep as <-; simpl; by rewrite app_nil_r.
  - simpl. destruct (ps !! term) as [[id []]|]; try done.
    injection Hstep as <-. simpl. split; [done|].
    rewrite outputsOf_app. unfold on_data. rewrite Hwin. reflexivity.
  - destruct (ps !! term) as [[id []]|]; try done.
    injection Hstep as <-. simpl. split; [done|].
    rewrite outputsOf_app, Hwin. reflexivity.
  - injection Hstep as <-. simpl. by rewrite app_nil_r.
  - injection Hstep as <-. simpl. by rewrite app_nil_r.
Qed.

Lemma dataOutputs_cons (ps : list PtyObject) (i : Input) (inputs : list Input) :
  dataOutputs ps (i :: inputs) = dataOutputs ps [i] ++ dataOutputs ps inputs.
Proof. unfold dataOutputs. cbn [flat_map]. by rewrite app_nil_r. Qed.

Lemma dataOutputs_stable (ps ps' : list PtyObject) (i : Input) :
  (forall (term : Handle) p, ps !! term = Some p ->
     exists p', ps' !! term = Some p' /\ closure_termId p' = closure_termId p) ->
  (forall term data, i = Data term data -> is_Some (ps !! term)) ->
  dataOutputs ps' [i] = dataOutputs ps [i].
Proof.
  intros Hstable Henabled. unfold dataOutputs. cbn [flat_map].
  destruct i; try done.
  destruct (Henabled term data eq_refl) as [p Hp].
  destruct (Hstable term p Hp) as (p' & Hp' & Hid).
  by rewrite Hp, Hp', Hid.
Qed.

(** X17: as long as the window is there, the [terminal-output] messages
    sent during a run are exactly the chunks delivered by the pty objects,
    in the order they were delivered, each tagged with the ID its session
    was created with; no chunk is dropped, repeated or reordered, whatever
    requests come in between. *)
Theorem output_order_kept (host : Host) (inputs : list Input) (s s' : System) :
  mainWindow (main s) = true ->
  Forall (fun i => closesWindow i = false) inputs ->
  run host s inputs = Some s' ->
  outputsOf (sent s') = outputsOf (sent s) ++ dataOutputs (procs s') inputs.
Proof.
  intros Hwin Hall. revert s Hwin.
  induction Hall as [|i inputs Hi _ IH]; intros s Hwin Hrun.
  - injection Hrun as <-. unfold dataOutputs. simpl. by rewrite app_nil_r.
  - cbn [run] in Hrun. destruct (step host s i) as [s1|] eqn:Hstep; [|done].
    destruct (step_outputs host s s1 i Hwin Hi Hstep) as [Hwin1 Hout1].
    rewrite (IH s1 Hwin1 Hrun), Hout1, <- app_assoc. f_equal.
    rewrite (dataOutputs_cons (procs s') i inputs).
    f_equal. symmetry. apply dataOutputs_stable.
    + intros term p Hp.
      destruct (step_closure_stable host s s1 i term p Hstep Hp)
        as (p1 & Hp1 & Hid1).
      destruct (run_closure_stable host inputs s1 s' term p1 Hrun Hp1)
        as (p' & Hp' & Hid').
      exists p'. split; [done|]. congruence.
    + intros term data ->. simpl in Hstep.
      by destruct (procs s !! term).
Qed.

Lemma output_order_kept_witness :
  exists s',
    run host0 initial interleavedRun = Some s' /\
    outputsOf (sent s') =
      [TerminalOutput "a" "1"; TerminalOutput "b" "2"; TerminalOutput "a" "3";
       TerminalOutput "a" "4"].
Proof.
  eexists. split; [vm_compute; reflexivity|].
  rewrite (output_order_kept host0 interleavedRun initial);
    [reflexivity|reflexivity|compute_done|vm_compute; reflexivity].
Defined.

(** ** From a listing to the next request *)






(** ** The case of an extension *)

Lemma toLowerCase_char_dot (c : ascii) :
  Ascii.eqb (JS.toLowerCase_char c) "."%char = Ascii.eqb c "."%char.
Proof. destruct c as [[] [] [] [] [] [] [] []]; reflexivity. Qed.

Lemma chars_toLowerCase (s : string) :
  JS.chars (JS.toLowerCase s) = map JS.toLowerCase_char (JS.chars s).
Proof. unfold JS.toLowerCase. apply chars_str. Qed.

Lemma lastDot_toLowerCase (l : list ascii) (i : nat) (found : option nat) :
  Path.lastDot (map JS.toLowerCase_char l) i found = Path.lastDot l i found.
Proof.
  revert i found. induction l as [|c l IH]; intros i found; [done|].
  cbn [map Path.lastDot]. by rewrite toLowerCase_char_dot, IH.
Qed.

Lemma toLowerCase_dotdot (s : string) :
  String.eqb (JS.toLowerCase s) ".." = String.eqb s "..".
Proof.
  assert (Hchar : forall c, JS.toLowerCase_char c = "."%char -> c = "."%char).
  { intros c Hc. apply Ascii.eqb_eq. rewrite <- toLowerCase_char_dot.
    by apply Ascii.eqb_eq. }
  destruct (String.eqb_spec s "..") as [->|Hne]; [reflexivity|].
  apply String.eqb_neq. intros Hlow. apply Hne.
  apply (f_equal JS.chars) in Hlow. rewrite chars_toLowerCase in Hlow.
  rewrite <- (str_chars s).
  destruct (JS.chars s) as [|c1 [|c2 [|c3 l]]]; try discriminate Hlow.
  injection Hlow as H1 H2. by rewrite (Hchar c1 H1), (Hchar c2 H2).
Qed.

(** Lower-casing a name and taking its extension commute. *)
Lemma extname_toLowerCase (n : string) :
  JS.toLowerCase (Path.extname n) = Path.extname (JS.toLowerCase n).
Proof.
  unfold Path.extname.
  rewrite chars_toLowerCase, lastDot_toLowerCase, toLowerCase_dotdot.
  destruct (Path.lastDot (JS.chars n) 0 None) as [[|d]|]; try reflexivity.
  destruct (String.eqb n ".."); [reflexivity|].
  unfold JS.toLowerCase. by rewrite chars_str, skipn_map.
Qed.

(** X19: the filter and the content flags of [list-files] do not look at
    the case of the letters of a name: two entries of the same kind whose
    names differ only in case are both shown or both left out, and carry
    the same flags. *)
Theorem listing_ignores_case (relativePath : string) (e1 e2 : Fs.Dirent) :
  Fs.isDirectory e1 = Fs.isDirectory e2 ->
  JS.toLowerCase (Fs.name e1) = JS.toLowerCase (Fs.name e2) ->
  allowed e1 = allowed e2 /\
  isText (toFileEntry relativePath e1) = isText (toFileEntry relativePath e2) /\
  isPdf (toFileEntry relativePath e1) = isPdf (toFileEntry relativePath e2) /\
  isImage (toFileEntry relativePath e1) = isImage (toFileEntry relativePath e2).
Proof.
  intros Hdir Hname. unfold allowed, toFileEntry. simpl.
  by rewrite !extname_toLowerCase, Hname, Hdir.
Qed.

Lemma listing_ignores_case_witness :
  allowed {| Fs.name := "Paper.TEX"; Fs.isDirectory := false |} =
  allowed {| Fs.name := "paper.tex"; Fs.isDirectory := false |}.
Proof.
  apply (listing_ignores_case ""
           {| Fs.name := "Paper.TEX"; Fs.isDirectory := false |}
           {| Fs.name := "paper.tex"; Fs.isDirectory := false |});
    reflexivity.
Defined.
